(** * esgpull: query composition, artifact resolution and the retry life cycle

    A shallow embedding of the parts of [esgpull] that decide the
    properties stated below:

    - [esgpull/db/models.py]: [FileStatus], [File.get_local_path],
      [File.from_dict];
    - [esgpull/cli/retry.py]: the [retry] command;
    - [esgpull/cli/config.py]: [extract_command];
    - [esgpull/__init__.py]: the signature of [Esgpull.__init__],
      [Esgpull.fetch_params];
    - [esgpull/models/query.py]: [Query.asdict], [Query.clone],
      [Query.compute_sha], [Query.name], [Query.short_require],
      [Query.__lshift__], [Query.__wrap_values].

    Python strings are modelled by [string] (byte strings; every separator
    the code searches for is ASCII), Python dicts used as maps by [gmap],
    objects that are mutated in place by locations in an explicit heap, and
    exceptions by the left summand of a sum type. *)

From Stdlib Require Import ZArith Ascii String.
From stdpp Require Import gmap strings list fin_maps pretty.

Local Open Scope string_scope.
Local Set Warnings "-register-all".

(** ** Exceptions and the error monad *)

Inductive Exn :=
| AttributeError (name : string)
| AssertionError
| KeyError (key : string)
| IndexError
| ValueError
| TypeError
| Exit (code : Z)
| Abort
| RemoteError (what : string)
| Unmodelled (what : string).

Definition Exc (A : Type) : Type := Exn + A.

Definition ok {A} (a : A) : Exc A := inr a.
Definition raise {A} (e : Exn) : Exc A := inl e.

Definition ebind {A B} (k : A → Exc B) (m : Exc A) : Exc B :=
  match m with
  | inl e => inl e
  | inr a => k a
  end.

#[global] Instance exc_ret : MRet Exc := @ok.
#[global] Instance exc_bind : MBind Exc := @ebind.

(** ** Python values found in a raw search hit (a decoded JSON object) *)

Inductive PyVal :=
| VStr (s : string)
| VInt (z : Z)
| VBool (b : bool)
| VNone
| VFloat (shown : string)   (* a float, carried by its [str()] rendering *)
| VList (l : list PyVal).

(** ** String operations of the Python standard library *)

Module PyStr.

(** [strip_prefix p s] is [Some r] when [s = p ++ r]. *)
Fixpoint strip_prefix (p s : string) : option string :=
  match p, s with
  | EmptyString, _ => Some s
  | String a p', String b s' =>
      if decide (a = b) then strip_prefix p' s' else None
  | String _ _, EmptyString => None
  end.

Definition startswith (s p : string) : bool :=
  match strip_prefix p s with Some _ => true | None => false end.

(** [str.removeprefix] *)
Definition removeprefix (s p : string) : string :=
  match strip_prefix p s with Some r => r | None => s end.

(** [s.partition(sep)[0]] for a non-empty [sep]: the part of [s] before
    the first occurrence of [sep], all of [s] when there is none. *)
Fixpoint partition0 (s sep : string) : string :=
  match s with
  | EmptyString => EmptyString
  | String c s' =>
      if startswith s sep then EmptyString else String c (partition0 s' sep)
  end.

(** The split of [s] at the last occurrence of a non-empty [sep]. *)
Fixpoint rsplit_last (s sep : string) : option (string * string) :=
  match s with
  | EmptyString => None
  | String c s' =>
      match rsplit_last s' sep with
      | Some (a, b) => Some (String c a, b)
      | None =>
          match strip_prefix sep s with
          | Some r => Some (EmptyString, r)
          | None => None
          end
      end
  end.

(** [s.rsplit(sep, 1)] *)
Definition rsplit1 (s sep : string) : list string :=
  match rsplit_last s sep with
  | Some (a, b) => [a; b]
  | None => [s]
  end.

(** [l[i]] on a Python list *)
Definition index {A} (l : list A) (i : nat) : Exc A :=
  match l !! i with
  | Some x => ok x
  | None => raise IndexError
  end.

(** [sep.join(l)] *)
Fixpoint join (sep : string) (l : list string) : string :=
  match l with
  | [] => EmptyString
  | [x] => x
  | x :: l' => x +:+ sep +:+ join sep l'
  end.

(** [s.replace(old, new)] for a non-empty [old]: occurrences are replaced
    from left to right and do not overlap.  [skip] counts the characters
    of the occurrence being replaced that are still to be passed over. *)
Fixpoint replace_go (old new : string) (skip : nat) (s : string) : string :=
  match s with
  | EmptyString => EmptyString
  | String c s' =>
      match skip with
      | S k => replace_go old new k s'
      | O =>
          if startswith s old
          then new +:+ replace_go old new (String.length old - 1) s'
          else String c (replace_go old new 0 s')
      end
  end.

Definition replace (s old new : string) : string := replace_go old new 0 s.

(** [str(v)], as [str.format] renders a value under an empty format
    specification.  Lists are rendered through [repr] of their items,
    which is outside the modelled fragment. *)
Definition str (v : PyVal) : Exc string :=
  match v with
  | VStr s => ok s
  | VInt z => ok (pretty z)
  | VBool true => ok "True"
  | VBool false => ok "False"
  | VNone => ok "None"
  | VFloat shown => ok shown
  | VList _ => raise (Unmodelled "str of a list")
  end.

Definition is_digit (c : ascii) : bool :=
  let n := nat_of_ascii c in (48 <=? n)%nat && (n <=? 57)%nat.

Fixpoint all_digits (s : string) : bool :=
  match s with
  | EmptyString => true
  | String c s' => is_digit c && all_digits s'
  end.

(** Characters that start an attribute access, an index, a conversion or a
    format specification inside a replacement field. *)
Definition field_operator (c : ascii) : bool :=
  bool_decide (c = "."%char) || bool_decide (c = "["%char)
  || bool_decide (c = "!"%char) || bool_decide (c = ":"%char).

Inductive Scan :=
| Literal                    (* in literal text *)
| OpenBrace                  (* a "{" was read *)
| CloseBrace                 (* a "}" was read in literal text *)
| Field (name : string).     (* inside "{name", name read so far *)

(** The value of a completed replacement field with keyword arguments
    only: an empty or numeric name is positional. *)
Definition field_value (kwargs : gmap string PyVal) (name : string) : Exc string :=
  if all_digits name then raise IndexError
  else match kwargs !! name with
       | Some v => str v
       | None => raise (KeyError name)
       end.

(** [template.format] called with keyword arguments only, on templates
    whose fields are plain names. *)
Fixpoint format_go (kwargs : gmap string PyVal) (st : Scan) (s : string)
  : Exc string :=
  match s with
  | EmptyString =>
      match st with
      | Literal => ok EmptyString
      | _ => raise ValueError
      end
  | String c s' =>
      match st with
      | Literal =>
          if decide (c = "{"%char) then format_go kwargs OpenBrace s'
          else if decide (c = "}"%char) then format_go kwargs CloseBrace s'
          else (r ← format_go kwargs Literal s' ; ok (String c r))
      | OpenBrace =>
          if decide (c = "{"%char)
          then (r ← format_go kwargs Literal s' ; ok (String c r))
          else if decide (c = "}"%char)
          then (v ← field_value kwargs EmptyString ;
                r ← format_go kwargs Literal s' ; ok (v +:+ r))
          else if field_operator c then raise (Unmodelled "compound field")
          else format_go kwargs (Field (String c EmptyString)) s'
      | CloseBrace =>
          if decide (c = "}"%char)
          then (r ← format_go kwargs Literal s' ; ok (String c r))
          else raise ValueError
      | Field name =>
          if decide (c = "}"%char)
          then (v ← field_value kwargs name ;
                r ← format_go kwargs Literal s' ; ok (v +:+ r))
          else if decide (c = "{"%char) then raise ValueError
          else if field_operator c then raise (Unmodelled "compound field")
          else format_go kwargs (Field (name +:+ String c EmptyString)) s'
      end
  end.

Definition format (template : string) (kwargs : gmap string PyVal) : Exc string :=
  format_go kwargs Literal template.

(** [s[:n]] *)
Fixpoint take (n : nat) (s : string) : string :=
  match n, s with
  | S n', String c s' => String c (take n' s')
  | _, _ => EmptyString
  end.

(** [s * n] *)
Fixpoint times (s : string) (n : nat) : string :=
  match n with
  | O => EmptyString
  | S n' => s +:+ times s n'
  end.

(** [s.split(sep)] for a non-empty [sep]; [skip] counts the characters of
    the separator being passed over. *)
Fixpoint split_go (sep : string) (skip : nat) (s : string) : list string :=
  match s with
  | EmptyString => [EmptyString]
  | String c s' =>
      match skip with
      | S k => split_go sep k s'
      | O =>
          if startswith s sep
          then EmptyString :: split_go sep (String.length sep - 1) s'
          else match split_go sep 0 s' with
               | piece :: pieces => String c piece :: pieces
               | [] => [String c EmptyString]
               end
      end
  end.

Definition split (s sep : string) : list string := split_go sep 0 s.

(** [c in s] for a single character [c] *)
Fixpoint has_char (c : ascii) (s : string) : bool :=
  match s with
  | EmptyString => false
  | String d s' => bool_decide (d = c) || has_char c s'
  end.

End PyStr.

(** ** esgpull/db/models.py *)

(** [class FileStatus(str, Enum)] *)
Inductive FileStatus :=
| new | queued | starting | started | pausing | paused | error | cancelled | done.

#[global] Instance FileStatus_eq_dec : EqDecision FileStatus.
Proof. solve_decision. Defined.

Module FileStatus_.

(** The members of the enumeration, under the names the class body gives
    them. *)
Definition members : list (string * FileStatus) :=
  [("new", new); ("queued", queued); ("starting", starting);
   ("started", started); ("pausing", pausing); ("paused", paused);
   ("error", error); ("cancelled", cancelled); ("done", done)].

(** [s.value] *)
Definition value (s : FileStatus) : string :=
  match s with
  | new => "new" | queued => "queued" | starting => "starting"
  | started => "started" | pausing => "pausing" | paused => "paused"
  | error => "error" | cancelled => "cancelled" | done => "done"
  end.

(** [FileStatus.retryable()] *)
Definition retryable : list FileStatus :=
  [new; starting; started; pausing; paused; error; cancelled].

End FileStatus_.

(** [class File(Table)]; [id] and [last_updated] are assigned by the
    database and are not arguments of the constructor. *)
Module File.
Record t := mk {
file_id : string;
dataset_id : string;
master_id : string;
url : string;
version : string;
filename : string;
local_path : string;
data_node : string;
checksum : string;
checksum_type : string;
size : Z;
status : FileStatus;
raw : gmap string PyVal
}.

(** [file.status = s] *)
Definition set_status (f : t) (s : FileStatus) : t :=
mk (file_id f) (dataset_id f) (master_id f) (url f) (version f)
  (filename f) (local_path f) (data_node f) (checksum f) (checksum_type f)
  (size f) s (raw f).
End File.

(** [d[k]] on a dict *)
Definition getitem {V} (d : gmap string V) (k : string) : Exc V :=
  match d !! k with
  | Some v => ok v
  | None => raise (KeyError k)
  end.

(** [a + b] on the values of a raw record: only two strings can be added
    without a [TypeError] when one operand is a string. *)
Definition py_add (a b : PyVal) : Exc PyVal :=
  match a, b with
  | VStr x, VStr y => ok (VStr (x +:+ y))
  | _, _ => raise TypeError
  end.

Section Resolver.

(** [esgpull.utils.find_str] and [find_int] are not among the sources:
    they are taken as given. *)
Variable find_str : PyVal → Exc string.
Variable find_int : PyVal → Exc Z.

(** The body of the first loop of [get_local_path]. *)
Definition flatten (v : PyVal) : PyVal :=
  match v with
  | VList [x] => x
  | _ => v
  end.

(** The CORDEX special case of [get_local_path]. *)
Definition cordex (flat_raw : gmap string PyVal) : Exc (gmap string PyVal) :=
  if decide (is_Some (flat_raw !! "rcm_name")) then
    institute ← getitem flat_raw "institute";
    rcm_name ← getitem flat_raw "rcm_name";
    dashed ← py_add institute (VStr "-");
    rcm_model ← py_add dashed rcm_name;
    ok (<["rcm_model" := rcm_model]> flat_raw)
  else ok flat_raw.

(** [File.get_local_path] *)
Definition get_local_path (raw : gmap string PyVal) (version : string)
  : Exc string :=
  let flat_raw := flatten <$> raw in
  found ← getitem flat_raw "directory_format_template_";
  template ← find_str found;
  let template := PyStr.removeprefix template "%(root)s/" in
  let template := PyStr.replace template "%(" "{" in
  let template := PyStr.replace template ")s" "}" in
  let flat_raw := delete "version" flat_raw in
  flat_raw ← cordex flat_raw;
  PyStr.format template (<["version" := VStr version]> flat_raw).

(** [raw[k]] followed by [find_str] *)
Definition raw_str (raw : gmap string PyVal) (k : string) : Exc string :=
  v ← getitem raw k; find_str v.

(** [File.from_dict] *)
Definition from_dict (raw : gmap string PyVal) : Exc File.t :=
  found ← raw_str raw "dataset_id";
  let dataset_id := PyStr.partition0 found "|" in
  filename ← raw_str raw "title";
  found ← raw_str raw "url";
  let url := PyStr.partition0 found "|" in
  data_node ← raw_str raw "data_node";
  checksum ← raw_str raw "checksum";
  checksum_type ← raw_str raw "checksum_type";
  found ← getitem raw "size";
  size ← find_int found;
  let file_id := PyStr.join "." [dataset_id; filename] in
  dataset_master ← PyStr.index (PyStr.rsplit1 dataset_id ".") 0;
  let master_id := PyStr.join "." [dataset_master; filename] in
  version ← PyStr.index (PyStr.rsplit1 dataset_id ".") 1;
  local_path ← get_local_path raw version;
  ok {| File.file_id := file_id; File.url := url;
        File.filename := filename; File.dataset_id := dataset_id;
        File.master_id := master_id; File.version := version;
        File.local_path := local_path; File.data_node := data_node;
        File.checksum := checksum; File.checksum_type := checksum_type;
        File.size := size; File.status := new; File.raw := raw |}.

End Resolver.

(** An instance of [find_str] and [find_int] on which the model can be run:
    the value itself, or the first element of a list. *)
Fixpoint first_str (v : PyVal) : Exc string :=
  match v with
  | VStr s => ok s
  | VList (x :: _) => first_str x
  | VList [] => raise IndexError
  | _ => raise ValueError
  end.

Fixpoint first_int (v : PyVal) : Exc Z :=
  match v with
  | VInt z => ok z
  | VList (x :: _) => first_int x
  | VList [] => raise IndexError
  | _ => raise ValueError
  end.

(** ** esgpull/cli/retry.py *)

(** What a command acts on: the rows of the [file] table, the calls made to
    the database so far, and the lines printed on the console. *)
Inductive DbCall :=
| Scalars (statuses : list FileStatus)
| Add (rows : list nat).

Record World := mkWorld {
  db_files : list File.t;
  db_calls : list DbCall;
  ui_out : list string
}.

(** Commands: a result or an exception, and the world they leave. *)
Definition Cmd (A : Type) : Type := World → Exc A * World.

#[global] Instance cmd_ret : MRet Cmd := λ A a w, (ok a, w).
#[global] Instance cmd_bind : MBind Cmd := λ A B k m w,
  match m w with
  | (inl e, w') => (inl e, w')
  | (inr a, w') => k a w'
  end.

Definition lift {A} (m : Exc A) : Cmd A := λ w, (m, w).
Definition throw {A} (e : Exn) : Cmd A := λ w, (raise e, w).

(** [assert b] *)
Definition assert (b : bool) : Cmd unit :=
  if b then mret () else throw AssertionError.

(** [esg.db.scalars(sql.file.with_status( *status ))]: the rows whose status
    is one of [statuses], each with its position in the table. *)
Definition db_scalars (statuses : list FileStatus) : Cmd (list (nat * File.t)) :=
  λ w, (ok (filter (λ r, File.status r.2 ∈ statuses) (imap pair (db_files w))),
        mkWorld (db_files w) (db_calls w ++ [Scalars statuses]) (ui_out w)).

(** [esg.db.add( *files )]: the rows are written back. *)
Definition db_add (rows : list (nat * File.t)) : Cmd unit :=
  λ w, (ok (),
        mkWorld (foldl (λ fs r, <[r.1 := r.2]> fs) (db_files w) rows)
                (db_calls w ++ [Add rows.*1]) (ui_out w)).

(** [esg.ui.print(msg)] *)
Definition ui_print (msg : string) : Cmd unit :=
  λ w, (ok (), mkWorld (db_files w) (db_calls w) (ui_out w ++ [msg])).

(** [Counter(xs)], as the list of its items in first-seen order. *)
Fixpoint count_one (x : FileStatus) (acc : list (FileStatus * nat))
  : list (FileStatus * nat) :=
  match acc with
  | [] => [(x, 1)]
  | (y, n) :: acc' =>
      if decide (x = y) then (y, S n) :: acc' else (y, n) :: count_one x acc'
  end.

Definition Counter (xs : list FileStatus) : list (FileStatus * nat) :=
  foldl (λ acc x, count_one x acc) [] xs.

(** [for x in xs: body x] *)
Fixpoint for_each {A} (xs : list A) (body : A → Cmd unit) : Cmd unit :=
  match xs with
  | [] => mret ()
  | x :: xs' => _ ← body x; for_each xs' body
  end.

(** [Esgpull(...)] of esgpull/__init__.py, called with keyword arguments
    only.  [__init__] has the one parameter [path]: any other keyword is a
    [TypeError], raised before the body runs.  The body opens the
    filesystem and the database, here the [World]. *)
Definition Esgpull_new (keywords : list string) : Cmd unit :=
  if forallb (λ keyword, bool_decide (keyword = "path")) keywords
  then mret ()
  else throw TypeError.

Section Retry.

(** retry.py imports [FileStatus] from [esgpull.models], which is not
    among the sources: the class is a parameter.  [status_attr name] is
    what reading [FileStatus.<name>] gives, [status_retryable] what the
    call [FileStatus.retryable()] gives. *)
Variable status_attr : string → Exc FileStatus.
Variable status_retryable : Exc (list FileStatus).

(** The context manager [esg.ui.logging("retry", onraise=Abort)] is not
    among the sources: [onraise e] is the exception it lets out when [e]
    is raised inside its block. *)
Variable onraise : Exn → Exn.

Definition logging {A} (block : Cmd A) : Cmd A := λ w,
  match block w with
  | (inl e, w') => (inl (onraise e), w')
  | (inr a, w') => (inr a, w')
  end.

(** [for file in files: file.status = FileStatus.Queued]: the attribute is
    read anew on every turn of the loop. *)
Fixpoint requeue (files : list (nat * File.t)) : Cmd (list (nat * File.t)) :=
  match files with
  | [] => mret []
  | (i, file) :: files' =>
      target ← lift (status_attr "Queued");
      rest ← requeue files';
      mret ((i, File.set_status file target) :: rest)
  end.

(** [retry(status, _all, verbosity)] *)
Definition retry (status : list FileStatus) (_all : bool) : Cmd unit :=
  status ← (if _all then lift status_retryable else mret status);
  status ← (if bool_decide (status = [])
              then first ← lift (status_attr "Error");
                   second ← lift (status_attr "Cancelled");
                   mret [first; second]
              else mret status);
  _ ← Esgpull_new ["verbosity"];
  logging (
    forbidden ← lift (status_attr "Done");
    _ ← assert (bool_decide (forbidden ∉ status));
    forbidden ← lift (status_attr "Queued");
    _ ← assert (bool_decide (forbidden ∉ status));
    files ← db_scalars status;
    let status_str :=
      PyStr.join "/"
        ((λ s, "[bold red]" +:+ FileStatus_.value s +:+ "[/]") <$> status) in
    if bool_decide (files = []) then
      _ ← ui_print ("No " +:+ status_str +:+ " files found.");
      throw (Exit 0)
    else
      let counts := Counter ((λ r, File.status r.2) <$> files) in
      files ← requeue files;
      _ ← db_add files;
      let msg := "Sent back to the queue: " +:+
        PyStr.join ", "
          ((λ c, pretty c.2 +:+ " [bold red]" +:+ FileStatus_.value c.1 +:+ "[/]")
             <$> counts) in
      ui_print msg).

End Retry.

(** ** esgpull/__init__.py: the facet vocabulary cache *)

(** [class Param(Table)] of db/models.py *)
Module Param.
Record t := mk { name : string; value : string }.
#[global] Instance eq_dec : EqDecision t.
Proof. solve_decision. Defined.
End Param.

(** The calls [fetch_params] makes to the database. *)
Inductive ParamCall :=
| SelectParams
| DeleteParams (rows : list Param.t)
| AddParams (rows : list Param.t).

Record Store := mkStore {
  params : list Param.t;
  param_calls : list ParamCall
}.

(** What [fetch_params] sets on a [Context] before it reads
    [ctx.facet_counts]: the [distrib] flag, the [facets] of its query, and
    the [index_node] of every sub-query added by [with ctx.query]. *)
Record Context := mkContext {
  distrib : bool;
  facets : option string;
  index_nodes : list string
}.

(** One decoded facet-count answer: facet name, then value, then count. *)
Abbreviation FacetCounts := (gmap string (gmap string Z)).

Definition SKIP_FACETS : list string :=
  ["cf_standard_name"; "variable_long_name"; "creation_date"; "datetime_end"].

(** The inner loop of [fetch_params]: the values of one facet with a
    non-zero count and at most 255 characters. *)
Definition facet_values (values : gmap string Z) : gset string :=
  dom (filter (λ vc, vc.2 ≠ 0%Z ∧ (String.length vc.1 ≤ 255)%nat) values).

(** The body of [for name, values in facets.items()]. *)
Definition add_facet (acc : gmap string (gset string)) (item : string * gmap string Z)
  : gmap string (gset string) :=
  let '(name, values) := item in
  if bool_decide (name ∈ SKIP_FACETS) || bool_decide (size values = 0) then acc
  else
    let found := facet_values values in
    if bool_decide (found ≠ ∅)
    then <[name := default ∅ (acc !! name) ∪ found]> acc
    else acc.

(** The two nested loops that fill [facet_counts]. *)
Definition collect (index_facets : list FacetCounts) : gmap string (gset string) :=
  foldl (λ acc facets, foldl add_facet acc (map_to_list facets)) ∅ index_facets.

(** The loop that builds [new_params]. *)
Definition new_params_of (facet_counts : gmap string (gset string)) : list Param.t :=
  map_to_list facet_counts ≫= λ item, Param.mk item.1 <$> elements item.2.

(** [value] is recorded under [name] in the dict of sets [acc]. *)
Definition recorded (acc : gmap string (gset string)) (name value : string)
  : Prop :=
  ∃ values, acc !! name = Some values ∧ value ∈ values.

Section Vocabulary.

(** [Context] and its property [facet_counts] (esgpull.context) are not
    among the sources: [facet_counts ctx] is what reading the property
    gives, an exception when a remote request fails. *)
Variable facet_counts : Context → Exc (list FacetCounts).

(** Modelled from the spec: [Database.select], [Database.delete] and
    [Database.add] (esgpull.db) are not among the sources.  The spec has
    the cache replaced transactionally, delete-all then insert-all, with
    writes committed only after full resolution: a delete is staged, and
    takes effect on the stored rows together with the insert that follows
    it.  [staged calls] are the rows whose delete is pending after
    [calls]. *)
Definition staged (calls : list ParamCall) : list Param.t :=
  foldl (λ pending call,
           match call with
           | SelectParams => pending
           | DeleteParams rows => (pending ++ rows)%list
           | AddParams _ => []
           end) [] calls.

Definition select_params (s : Store) : list Param.t * Store :=
  (params s, mkStore (params s) (param_calls s ++ [SelectParams])).

Definition delete_params (rows : list Param.t) (s : Store) : Store :=
  mkStore (params s) (param_calls s ++ [DeleteParams rows]).

Definition add_params (rows : list Param.t) (s : Store) : Store :=
  mkStore (filter (λ p, p ∉ staged (param_calls s)) (params s) ++ rows)
          (param_calls s ++ [AddParams rows]).

(** The remote part of [fetch_params], from [Context(distrib=True)] to
    [index_facets = ctx.facet_counts]. *)
Definition fetch_index_facets : Exc (list FacetCounts) :=
  counts ← facet_counts (mkContext true (Some "index_node") []);
  first ← PyStr.index counts 0;
  nodes ← getitem first "index_node";
  let index_nodes := (map_to_list nodes).*1 in
  facet_counts (mkContext false None index_nodes).

(** [Esgpull.fetch_params] *)
Definition fetch_params (update : bool) (s : Store) : Exc bool * Store :=
  let '(params, s) := select_params s in
  if negb (bool_decide (params = [])) && negb update then (ok false, s)
  else
    let s := delete_params params s in
    match fetch_index_facets with
    | inl e => (raise e, s)
    | inr index_facets =>
        let new_params := new_params_of (collect index_facets) in
        (ok true, add_params new_params s)
    end.

End Vocabulary.

(** ** esgpull/models/query.py *)

(** Objects that the code mutates in place live in a heap, one table per
    class; an attribute that holds an object holds its location. *)
Abbreviation loc := nat.

(** The value of a flag: [bool | None], as [QueryDict] types them. *)
Abbreviation FlagValue := (option bool).

(** Modelled from the spec: [Tag] (esgpull.models.tag) is not among the
    sources.  A tag has a name, and its identity is the hash of the name;
    [sha] holds the identity once it has been computed. *)
Module Tag.
Record t := mk { name : string; sha : option string }.
Definition _as_bytes (self : t) : string := name self.
End Tag.

(** Modelled from the spec: [Options] (esgpull.models.options) is not
    among the sources.  An [Options] holds named tri-state flags; a flag
    that is not set is absent from [flags], from [items()] and from
    [asdict()]. *)
Module Options.
Record t := mk { flags : gmap string FlagValue; sha : option string }.
Definition setattr (name : string) (option : FlagValue) (self : t) : t :=
  mk (<[name := option]> (flags self)) (sha self).
End Options.

(** Modelled from the spec: [Selection] (esgpull.models.selection) is not
    among the sources.  A [Selection] maps a facet name to its list of
    values. *)
Module Selection.
Record t := mk { facets : gmap string (list string); sha : option string }.
Definition setitem (name : string) (values : list string) (self : t) : t :=
  mk (<[name := values]> (facets self)) (sha self).
End Selection.

(** [class Query(Base)].  The columns [options_sha] and [selection_sha] and
    the relationship [files], which no method below reads, are left out. *)
Module Query.
Record t := mk {
  tags : loc;                 (* a list object holding Tag locations *)
  transient : bool;
  require : option string;
  options : loc;
  selection : loc;
  sha : option string
}.
Definition set_transient (b : bool) (self : t) : t :=
  mk (tags self) b (require self) (options self) (selection self) (sha self).
Definition set_sha (s : string) (self : t) : t :=
  mk (tags self) (transient self) (require self) (options self)
     (selection self) (Some s).
End Query.

Record Heap := mkHeap {
  tag_objs : list Tag.t;
  list_objs : list (list loc);
  options_objs : list Options.t;
  selection_objs : list Selection.t;
  query_objs : list Query.t
}.

(** Programs on the heap; [None] is a read through a dangling location. *)
Definition Py (A : Type) : Type := Heap → option (A * Heap).

#[global] Instance py_ret : MRet Py := λ A a h, Some (a, h).
#[global] Instance py_bind : MBind Py := λ A B k m h,
  match m h with
  | Some (a, h') => k a h'
  | None => None
  end.

Definition get_tag (l : loc) : Py Tag.t :=
  λ h, x ← tag_objs h !! l; Some (x, h).
Definition get_list (l : loc) : Py (list loc) :=
  λ h, x ← list_objs h !! l; Some (x, h).
Definition get_options (l : loc) : Py Options.t :=
  λ h, x ← options_objs h !! l; Some (x, h).
Definition get_selection (l : loc) : Py Selection.t :=
  λ h, x ← selection_objs h !! l; Some (x, h).
Definition get_query (l : loc) : Py Query.t :=
  λ h, x ← query_objs h !! l; Some (x, h).

Definition new_tag (x : Tag.t) : Py loc :=
  λ h, Some (length (tag_objs h),
             mkHeap (tag_objs h ++ [x]) (list_objs h) (options_objs h)
                    (selection_objs h) (query_objs h)).
Definition new_list (x : list loc) : Py loc :=
  λ h, Some (length (list_objs h),
             mkHeap (tag_objs h) (list_objs h ++ [x]) (options_objs h)
                    (selection_objs h) (query_objs h)).
Definition new_options (x : Options.t) : Py loc :=
  λ h, Some (length (options_objs h),
             mkHeap (tag_objs h) (list_objs h) (options_objs h ++ [x])
                    (selection_objs h) (query_objs h)).
Definition new_selection (x : Selection.t) : Py loc :=
  λ h, Some (length (selection_objs h),
             mkHeap (tag_objs h) (list_objs h) (options_objs h)
                    (selection_objs h ++ [x]) (query_objs h)).
Definition new_query (x : Query.t) : Py loc :=
  λ h, Some (length (query_objs h),
             mkHeap (tag_objs h) (list_objs h) (options_objs h)
                    (selection_objs h) (query_objs h ++ [x])).

(** In-place updates of the object at a location. *)
Definition modify_tag (l : loc) (f : Tag.t → Tag.t) : Py unit :=
  λ h, x ← tag_objs h !! l;
       Some ((), mkHeap (<[l := f x]> (tag_objs h)) (list_objs h)
                        (options_objs h) (selection_objs h) (query_objs h)).
Definition modify_list (l : loc) (f : list loc → list loc) : Py unit :=
  λ h, x ← list_objs h !! l;
       Some ((), mkHeap (tag_objs h) (<[l := f x]> (list_objs h))
                        (options_objs h) (selection_objs h) (query_objs h)).
Definition modify_options (l : loc) (f : Options.t → Options.t) : Py unit :=
  λ h, x ← options_objs h !! l;
       Some ((), mkHeap (tag_objs h) (list_objs h)
                        (<[l := f x]> (options_objs h)) (selection_objs h)
                        (query_objs h)).
Definition modify_selection (l : loc) (f : Selection.t → Selection.t) : Py unit :=
  λ h, x ← selection_objs h !! l;
       Some ((), mkHeap (tag_objs h) (list_objs h) (options_objs h)
                        (<[l := f x]> (selection_objs h)) (query_objs h)).
Definition modify_query (l : loc) (f : Query.t → Query.t) : Py unit :=
  λ h, x ← query_objs h !! l;
       Some ((), mkHeap (tag_objs h) (list_objs h) (options_objs h)
                        (selection_objs h) (<[l := f x]> (query_objs h))).

(** [for x in xs: body x] *)
Fixpoint py_for {A} (xs : list A) (body : A → Py unit) : Py unit :=
  match xs with
  | [] => mret ()
  | x :: xs' => _ ← body x; py_for xs' body
  end.

(** [[f x for x in xs]] *)
Fixpoint py_map {A B} (f : A → Py B) (xs : list A) : Py (list B) :=
  match xs with
  | [] => mret []
  | x :: xs' => y ← f x; ys ← py_map f xs'; mret (y :: ys)
  end.

(** [class QueryDict(TypedDict)]: a key that is not required is absent when
    its field is [None]; [transient] is present only when it is [True]. *)
Record QueryDict := mkQueryDict {
  d_tags : option (string + list string);
  d_transient : bool;
  d_require : option string;
  d_options : option (gmap string FlagValue);
  d_selection : option (gmap string (list string))
}.

Section QueryModel.

(** Not among the sources: the digest [sha1(bytes).hexdigest()] used by
    [Base.compute_sha], the byte serialisations [Options._as_bytes] and
    [Selection._as_bytes], Python's [repr] on strings, and the equality
    [Tag.__eq__] used by [tag in tags]. *)
Variable sha1 : string → string.
Variable options_as_bytes : gmap string FlagValue → string.
Variable selection_as_bytes : gmap string (list string) → string.
Variable repr : string → string.
Variable tag_eq : Tag.t → Tag.t → bool.

(** Modelled from the spec: [Base.compute_sha] (esgpull.models.base) is
    not among the sources.  The identity of a value is the hash of its
    byte serialisation. *)
Definition Tag_compute_sha (self : Tag.t) : Tag.t :=
  Tag.mk (Tag.name self) (Some (sha1 (Tag._as_bytes self))).
Definition Options_compute_sha (self : Options.t) : Options.t :=
  Options.mk (Options.flags self)
             (Some (sha1 (options_as_bytes (Options.flags self)))).
Definition Selection_compute_sha (self : Selection.t) : Selection.t :=
  Selection.mk (Selection.facets self)
               (Some (sha1 (selection_as_bytes (Selection.facets self)))).

(** [repr(x)] for [x : str | None] *)
Definition repr_opt (x : option string) : string :=
  match x with
  | Some s => repr s
  | None => "None"
  end.

(** [str((a, b, c))] *)
Definition str_tuple3 (a b c : option string) : string :=
  "(" +:+ repr_opt a +:+ ", " +:+ repr_opt b +:+ ", " +:+ repr_opt c +:+ ")".

(** The identity of a query in the words of the spec: the hash of the
    triple of [require], the identity of the options and the identity of
    the selection. *)
Definition identity (require : option string)
    (flags : gmap string FlagValue) (facets : gmap string (list string))
  : string :=
  sha1 (str_tuple3 require
          (Some (sha1 (options_as_bytes flags)))
          (Some (sha1 (selection_as_bytes facets)))).

(** [Query._as_bytes] *)
Definition _as_bytes (self : loc) : Py string :=
  q ← get_query self;
  o ← get_options (Query.options q);
  s ← get_selection (Query.selection q);
  mret (str_tuple3 (Query.require q) (Options.sha o) (Selection.sha s)).

(** [Query.compute_sha] *)
Definition compute_sha (self : loc) : Py unit :=
  q ← get_query self;
  tags ← get_list (Query.tags q);
  _ ← py_for tags (λ tag, modify_tag tag Tag_compute_sha);
  _ ← modify_options (Query.options q) Options_compute_sha;
  _ ← modify_selection (Query.selection q) Selection_compute_sha;
  bytes ← _as_bytes self;
  modify_query self (Query.set_sha (sha1 bytes)).

(** [Query.format_name] *)
Definition format_name (sha : string) : string := "#" +:+ PyStr.take 6 sha.

(** [Query.short_require] *)
Definition short_require (self : loc) : Py (Exc string) :=
  q ← get_query self;
  match Query.require q with
  | Some require =>
      if (String.length require =? 40)%nat
      then mret (ok (format_name require))
      else mret (ok require)
  | None => mret (raise ValueError)
  end.

(** [Query.name]; slicing [None] is a [TypeError]. *)
Definition name (self : loc) : Py (Exc string) :=
  q ← get_query self;
  _ ← (if Query.sha q is None then compute_sha self else mret ());
  q ← get_query self;
  match Query.sha q with
  | Some sha => mret (ok (format_name sha))
  | None => mret (raise TypeError)
  end.

(** [Query.asdict] *)
Definition asdict (self : loc) : Py QueryDict :=
  q ← get_query self;
  tags ← get_list (Query.tags q);
  names ← py_map (λ tag, t ← get_tag tag; mret (Tag.name t)) tags;
  o ← get_options (Query.options q);
  s ← get_selection (Query.selection q);
  mret {|
    d_tags := match names with
              | [] => None
              | [name] => Some (inl name)
              | _ => Some (inr names)
              end;
    d_transient := Query.transient q;
    d_require := Query.require q;
    d_options := if bool_decide (Options.flags o = ∅) then None
                 else Some (Options.flags o);
    d_selection := if bool_decide (Selection.facets s = ∅) then None
                   else Some (Selection.facets s)
  |}.

(** [Query( **d )]: the dataclass constructor, with the coercions of
    [Query.__setattr__] and the default factories of the fields. *)
Definition Query_init (d : QueryDict) : Py loc :=
  let names := match d_tags d with
               | None => []
               | Some (inl name) => [name]
               | Some (inr names) => names
               end in
  tags ← py_map (λ name, new_tag (Tag.mk name None)) names;
  tags ← new_list tags;
  options ← new_options (Options.mk (default ∅ (d_options d)) None);
  selection ← new_selection (Selection.mk (default ∅ (d_selection d)) None);
  new_query (Query.mk tags (d_transient d) (d_require d) options selection None).

(** [Query.clone] *)
Definition clone (self : loc) (with_sha : bool) : Py loc :=
  d ← asdict self;
  instance ← Query_init d;
  if with_sha then _ ← compute_sha instance; mret instance
  else mret instance.

(** [tag in tags]: identity, then equality. *)
Definition contains (tags : list loc) (tag : loc) : Py bool :=
  x ← get_tag tag;
  found ← py_map (λ l, y ← get_tag l;
                       mret (bool_decide (l = tag) || tag_eq y x)) tags;
  mret (existsb id found).

(** The body of [for tag in other.tags]. *)
Definition add_tag (self result tag : loc) : Py unit :=
  s ← get_query self;
  self_tags ← get_list (Query.tags s);
  present ← contains self_tags tag;
  if negb present
  then r ← get_query result;
       modify_list (Query.tags r) (λ tags, (tags ++ [tag])%list)
  else mret ().

(** The body of [for name, option in other.options.items()]. *)
Definition set_option (self : loc) (item : string * FlagValue) : Py unit :=
  s ← get_query self;
  modify_options (Query.options s) (Options.setattr item.1 item.2).

(** The body of [for name, values in other.selection.items()]. *)
Definition set_facet (result : loc) (item : string * list string) : Py unit :=
  r ← get_query result;
  modify_selection (Query.selection r) (Selection.setitem item.1 item.2).

(** [Query.__lshift__] *)
Definition __lshift__ (self other : loc) : Py loc :=
  result ← clone self false;
  o ← get_query other;
  other_tags ← get_list (Query.tags o);
  _ ← py_for other_tags (add_tag self result);
  other_options ← get_options (Query.options o);
  _ ← py_for (map_to_list (Options.flags other_options)) (set_option self);
  other_selection ← get_selection (Query.selection o);
  _ ← py_for (map_to_list (Selection.facets other_selection)) (set_facet result);
  o ← get_query other;
  _ ← modify_query result (Query.set_transient (Query.transient o));
  _ ← compute_sha result;
  mret result.

End QueryModel.

(** What can be observed of a query: the names of its tags, its flags, its
    selection, [transient] and [require]. *)
Record QueryView := mkQueryView {
  v_tags : list string;
  v_transient : bool;
  v_require : option string;
  v_options : gmap string FlagValue;
  v_selection : gmap string (list string)
}.

Definition view (h : Heap) (q : loc) : option QueryView :=
  x ← query_objs h !! q;
  tags ← list_objs h !! Query.tags x;
  names ← mapM (λ l, Tag.name <$> tag_objs h !! l) tags;
  o ← options_objs h !! Query.options x;
  s ← selection_objs h !! Query.selection x;
  Some (mkQueryView names (Query.transient x) (Query.require x)
                    (Options.flags o) (Selection.facets s)).

(** [q.sha] *)
Definition sha_of (h : Heap) (q : loc) : option string :=
  x ← query_objs h !! q; Query.sha x.

(** [result = base << override], observed: what [view] shows of [result],
    of [base] and of [override] once the call has returned. *)
Definition lshift_views sha1 options_as_bytes selection_as_bytes repr tag_eq
    (base override : loc) (h : Heap)
  : option (QueryView * QueryView * QueryView) :=
  run ← __lshift__ sha1 options_as_bytes selection_as_bytes repr tag_eq
                   base override h;
  result ← view run.2 run.1;
  base' ← view run.2 base;
  override' ← view run.2 override;
  Some (result, base', override').

(** An optional replica qualifier: nothing, or a bar and the rest. *)
Definition qualifier (q : string) : Prop :=
  q = EmptyString ∨ ∃ rest, q = String "|" rest.

(** ** Rendering of a list of values: [Query.__wrap_values] *)

(** One round of the loop over [values], on the lines written so far and
    the line being filled. *)
Definition wrap_step (maxlen : Z) (state : list string * list string)
    (value : string) : list string * list string :=
  let newline := (state.2 ++ [value])%list in
  let strline := PyStr.join ", " newline in
  if (Z.of_nat (String.length strline) <? maxlen)%Z
  then (state.1, newline)
  else ((state.1 ++ [strline])%list, []).

(** The lines after the loop and [if not lines: ...]. *)
Definition wrap_lines (maxlen : Z) (values : list string) : list string :=
  let state := foldl (wrap_step maxlen) ([], []) values in
  match state.1 with
  | [] => [PyStr.join ", " state.2]
  | _ :: _ => state.1
  end.

Section Rendering.

(** rich's [Text] is modelled by its characters; its
    [with_indent_guides] is not part of the program. *)
Variable with_indent_guides : string → nat → string.

(** [Query.__guide] *)
Definition __guide (text : string) (size : nat) : string :=
  with_indent_guides text size.

(** [Query.__wrap_values]; the argument [maxlen] is overwritten before it
    is read. *)
Definition __wrap_values (text : string) (values : list string) : Exc string :=
  let text := text +:+ "[" in
  let textlen := String.length text in
  let maxlen := (40 - Z.of_nat textlen)%Z in
  let padding := PyStr.times " " textlen in
  let lines := wrap_lines maxlen values in
  first ← PyStr.index lines 0;
  let text := text +:+ first in
  let text :=
    foldl (λ text line,
             __guide (text +:+ "," +:+ String "010"%char EmptyString
                      +:+ padding +:+ line) textlen)
          text (drop 1 lines) in
  ok (text +:+ "]").

End Rendering.

(** ** esgpull/cli/config.py *)

(** The dump of the configuration: tables nested in tables, with values
    at the leaves. *)
Inductive Info :=
| Leaf (v : PyVal)
| Table (entries : gmap string Info).

(** [info[key]]: only a table can be indexed by a key. *)
Definition info_getitem (info : Info) (key : string) : Exc Info :=
  match info with
  | Table entries => getitem entries key
  | Leaf _ => raise TypeError
  end.

(** [for key in keys: info = info[key]] *)
Fixpoint descend (keys : list string) (info : Info) : Exc Info :=
  match keys with
  | [] => ok info
  | key :: keys' => inner ← info_getitem info key; descend keys' inner
  end.

(** [for key in keys[::-1]: info = {key: info}] *)
Definition wrap (keys : list string) (info : Info) : Info :=
  foldl (λ inner key, Table {[key := inner]}) info (reverse keys).

(** [extract_command] *)
Definition extract_command (info : Info) (command : option string) : Exc Info :=
  match command with
  | None => ok info
  | Some command =>
      let keys := PyStr.split command "." in
      if forallb (λ key, 0 <? String.length key)%nat keys then
        inner ← descend keys info;
        ok (wrap keys inner)
      else raise AssertionError
  end.

(** ** Sample data on which the model is run *)

Definition sample_raw : gmap string PyVal :=
  list_to_map
    [("dataset_id", VStr "CMIP6.CMIP.IPSL.tas.gr.v20180803|vesg.ipsl.upmc.fr");
     ("title", VStr "tas_Amon.nc");
     ("url", VList [VStr "https://vesg.ipsl.upmc.fr/tas_Amon.nc|application/netcdf|HTTPServer"]);
     ("data_node", VStr "vesg.ipsl.upmc.fr");
     ("checksum", VList [VStr "0a1b2c"]);
     ("checksum_type", VList [VStr "SHA256"]);
     ("size", VInt 1024);
     ("directory_format_template_",
      VList [VStr "%(root)s/%(project)s/%(variable)s/%(version)s"]);
     ("project", VList [VStr "CMIP6"]);
     ("variable", VList [VStr "tas"])].

Definition sample_file (s : FileStatus) : File.t :=
  {| File.file_id := "CMIP6.CMIP.IPSL.tas.gr.v20180803.tas_Amon.nc";
     File.dataset_id := "CMIP6.CMIP.IPSL.tas.gr.v20180803";
     File.master_id := "CMIP6.CMIP.IPSL.tas.gr.tas_Amon.nc";
     File.url := "https://vesg.ipsl.upmc.fr/tas_Amon.nc";
     File.version := "v20180803";
     File.filename := "tas_Amon.nc";
     File.local_path := "CMIP6/tas/v20180803";
     File.data_node := "vesg.ipsl.upmc.fr";
     File.checksum := "0a1b2c";
     File.checksum_type := "SHA256";
     File.size := 1024;
     File.status := s;
     File.raw := sample_raw |}.

(** A database holding one file in status [error]. *)
Definition sample_world : World := mkWorld [sample_file error] [] [].

(** A cache of two entries, a federation whose first request fails, and one
    whose index answers while the request to its node fails. *)
Definition sample_store : Store :=
  mkStore [Param.mk "project" "CMIP6"; Param.mk "variable" "tas"] [].

Definition federation_down (ctx : Context) : Exc (list FacetCounts) :=
  raise (RemoteError "index_node").


(** A federation of one node that answers. *)
Definition node_answer : FacetCounts :=
  {["project" := {["CMIP6" := 3%Z; "CORDEX" := 0%Z]};
    "creation_date" := {["2020" := 1%Z]}]}.

Definition node_up (ctx : Context) : Exc (list FacetCounts) :=
  if distrib ctx
  then ok [{["index_node" := {["esgf-node.ipsl.upmc.fr" := 12%Z]}]}]
  else ok ((λ _, node_answer) <$> index_nodes ctx).

(** ** Shapes of directory templates

    A directory template as the index serves it is literal text interleaved
    with placeholders [%(name)s]. *)
Inductive Segment :=
| Lit (text : string)
| Hole (name : string).

Definition render_segment (seg : Segment) : string :=
  match seg with
  | Lit text => text
  | Hole name => "%(" +:+ name +:+ ")s"
  end.

Definition assemble (f : Segment → string) (segs : list Segment) : string :=
  foldr (λ seg rest, f seg +:+ rest) EmptyString segs.

Definition python_template (segs : list Segment) : string :=
  assemble render_segment segs.

(** A segment after [replace("%(", "{")], and after [replace(")s", "}")]. *)
Definition half_converted (seg : Segment) : string :=
  match seg with
  | Lit text => text
  | Hole name => "{" +:+ name +:+ ")s"
  end.

Definition converted (seg : Segment) : string :=
  match seg with
  | Lit text => text
  | Hole name => "{" +:+ name +:+ "}"
  end.

(** [free_of forbidden s]: no character of [forbidden] occurs in [s]. *)
Fixpoint free_of (forbidden s : string) : bool :=
  match forbidden with
  | EmptyString => true
  | String c forbidden' => negb (PyStr.has_char c s) && free_of forbidden' s
  end.

(** Literal text holds no placeholder or brace character; a placeholder
    name holds, besides, no character that [str.format] gives a meaning
    inside a field, and is not a number. *)
Definition segment_ok (seg : Segment) : Prop :=
  match seg with
  | Lit text => free_of "%(){}" text = true
  | Hole name => free_of "%(){}.[!:" name = true ∧ PyStr.all_digits name = false
  end.

(** What a segment is replaced with under the keyword arguments [kwargs]. *)
Definition substituted (kwargs : gmap string PyVal) (seg : Segment) (piece : string)
  : Prop :=
  match seg with
  | Lit text => piece = text
  | Hole name => ∃ v, kwargs !! name = Some v ∧ PyStr.str v = ok piece
  end.

Definition concat_str (pieces : list string) : string :=
  foldr String.append EmptyString pieces.

(** The record of the example of the spec. *)
Definition spec_raw : gmap string PyVal :=
  list_to_map [("directory_format_template_", VStr "%(root)s/%(a)s/%(b)s/%(version)s");
               ("a", VStr "x"); ("b", VStr "y")].

(** A CORDEX record without an institute. *)
Definition cordex_raw : gmap string PyVal :=
  list_to_map [("directory_format_template_",
                VList [VStr "%(root)s/%(project)s/%(rcm_model)s/%(version)s"]);
               ("project", VList [VStr "CORDEX"]);
               ("rcm_name", VList [VStr "RCA4"])].

(** Stand-ins for the digest, the serialisations, [repr] and the equality
    of tags, on which the model can be run. *)
Definition toy_sha1 (bytes : string) : string := "sha1:" +:+ bytes.
Definition toy_options_bytes (flags : gmap string FlagValue) : string :=
  PyStr.join "," ((λ item, item.1 +:+ match item.2 with
                                     | Some true => "=True"
                                     | Some false => "=False"
                                     | None => "=None"
                                     end) <$> map_to_list flags).
Definition toy_selection_bytes (facets : gmap string (list string)) : string :=
  PyStr.join "," ((λ item, item.1 +:+ "=" +:+ PyStr.join "|" item.2)
                    <$> map_to_list facets).
Definition toy_repr (s : string) : string := "'" +:+ s +:+ "'".
Definition toy_tag_eq (a b : Tag.t) : bool :=
  bool_decide (Tag.name a = Tag.name b).

(** A heap with four queries.  Query 0 requires another query, has tag
    [cmip] and selects a project; query 1 has tag [monthly], sets the flag
    [distrib] and selects a variable.  Queries 2 and 3 differ in their tags
    and in [transient] only. *)
Definition sample_heap : Heap :=
  mkHeap
    [Tag.mk "cmip" None; Tag.mk "monthly" None; Tag.mk "daily" None]
    [[0]; [1]; []; [1; 2]]
    [Options.mk ∅ None; Options.mk {["distrib" := Some true]} None;
     Options.mk {["latest" := Some true]} None;
     Options.mk {["latest" := Some true]} None]
    [Selection.mk {["project" := ["CMIP6"]]} None;
     Selection.mk {["variable" := ["tas"]]} None;
     Selection.mk {["project" := ["CORDEX"]]} None;
     Selection.mk {["project" := ["CORDEX"]]} None]
    [Query.mk 0 false (Some "0123abc") 0 0 None;
     Query.mk 1 true None 1 1 None;
     Query.mk 2 false None 2 2 None;
     Query.mk 3 true None 3 3 None].

(** What [view] shows of queries 2 and 3 of [sample_heap]. *)
Definition twin_plain : QueryView :=
  mkQueryView [] false None {["latest" := Some true]}
              {["project" := ["CORDEX"]]}.

Definition twin_tagged : QueryView :=
  mkQueryView ["monthly"; "daily"] true None {["latest" := Some true]}
              {["project" := ["CORDEX"]]}.

(** What [view] shows of queries 0 and 1 of [sample_heap]. *)
Definition sample_base : QueryView :=
  mkQueryView ["cmip"] false (Some "0123abc") ∅ {["project" := ["CMIP6"]]}.

Definition sample_override : QueryView :=
  mkQueryView ["monthly"] true None {["distrib" := Some true]}
              {["variable" := ["tas"]]}.

(** A CORDEX record with its institute, one whose institute has two
    values, and a record whose template names a field it does not have. *)
Definition cordex_full_raw : gmap string PyVal :=
  <["institute" := VList [VStr "SMHI"]]> cordex_raw.

Definition cordex_multi_raw : gmap string PyVal :=
  <["institute" := VList [VStr "SMHI"; VStr "KNMI"]]> cordex_raw.

Definition missing_field_raw : gmap string PyVal :=
  list_to_map [("directory_format_template_", VStr "%(root)s/%(a)s/%(c)s/%(version)s");
               ("a", VStr "x"); ("b", VStr "y")].

(** A hit whose dataset identity has no version segment. *)
Definition no_version_raw : gmap string PyVal :=
  <["dataset_id" := VStr "obs4MIPs|esgf.nccs.nasa.gov"]> sample_raw.

(** A federation that answers every request with an empty list. *)
Definition federation_mute (ctx : Context) : Exc (list FacetCounts) := ok [].

(** A configuration dump with two tables. *)
Definition sample_config : Info :=
  Table {["paths" := Table {["data" := Leaf (VStr "/data");
                             "db" := Leaf (VStr "/db")]};
          "search" := Table {["index_node" := Leaf (VStr "esgf-node.ipsl.upmc.fr")]}]}.

(** A heap whose only query carries a [sha] stored earlier, which is not
    the identity of what the query holds now. *)
Definition stored_heap : Heap :=
  mkHeap [] [[]] [Options.mk {["latest" := Some true]} None]
         [Selection.mk {["project" := ["CMIP6"]]} None]
         [Query.mk 0 false (Some "0123456789012345678901234567890123456789")
                   0 0 (Some "f00dfeed0123")].

(** A guide that marks the start of the text, and a tag longer than a
    line. *)
Definition toy_guides (text : string) (size : nat) : string := "|" +:+ text.

Definition long_tag : string := "a-tag-with-a-name-longer-than-one-line".

(** * Properties *)

(** ** The retry command *)

(** C9.  Called with no status and without the all-flag, [retry] raises
    before any call to the database, whatever class [FileStatus] it
    imports: when that class has no attribute [Error] or [Cancelled], the
    read at the default selection raises; when it has both,
    [Esgpull(verbosity=...)] is a [TypeError], since [Esgpull.__init__] takes
    [path] only.  The rows, the record of database calls and the console
    are as they were.  The members of [FileStatus] in db/models.py are
    named in lowercase: no member is named [Error] or [Cancelled]. *)
Theorem retry_default_raises_before_database status_attr status_retryable
    onraise (w : World) :
  retry status_attr status_retryable onraise [] false w
  = (raise (match status_attr "Error" with
            | inl e => e
            | inr _ => match status_attr "Cancelled" with
                       | inl e => e
                       | inr _ => TypeError
                       end
            end), w)
  ∧ ("Error" ∉ FileStatus_.members.*1)
  ∧ ("Cancelled" ∉ FileStatus_.members.*1).
Proof.
  split.
  - unfold retry. cbn.
    destruct (status_attr "Error") as [e|first]; [reflexivity|].
    destruct (status_attr "Cancelled") as [e|second]; reflexivity.
  - unfold FileStatus_.members. cbn [fmap list_fmap fst].
    split; intros Hin;
      repeat (apply elem_of_cons in Hin as [Hin|Hin]; [discriminate|]);
      inversion Hin.
Qed.

(** C2 (the code departs from the claim).  The claim says that retrying a
    file in status [error] succeeds and leaves it [queued].  On a database
    holding one file in status [error], [retry] raises [TypeError] at
    [Esgpull(verbosity=...)], since [Esgpull.__init__] takes [path] only:
    the database is not read and the file is still in status [error],
    whatever class [FileStatus] retry.py imports. *)
Theorem retry_error_file_not_requeued status_attr status_retryable onraise :
  retry status_attr status_retryable onraise [error] false sample_world
  = (raise TypeError, sample_world)
  ∧ File.status <$> db_files sample_world = [error].
Proof. split; reflexivity. Qed.

(** ** The facet vocabulary cache *)

Lemma filter_none {A} (P : A → Prop) `{∀ x, Decision (P x)} (l : list A) :
  Forall (λ x, ¬ P x) l → filter P l = [].
Proof.
  induction 1 as [|x l Hx _ IH]; [reflexivity|].
  rewrite filter_cons. destruct (decide (P x)); [contradiction|exact IH].
Qed.

Lemma staged_delete (calls : list ParamCall) (rows : list Param.t) :
  staged (calls ++ [DeleteParams rows]) = (staged calls ++ rows)%list.
Proof. unfold staged. rewrite foldl_app. reflexivity. Qed.

Lemma staged_select (calls : list ParamCall) :
  staged (calls ++ [SelectParams]) = staged calls.
Proof. unfold staged. rewrite foldl_app. reflexivity. Qed.

(** Once the delete of every stored row is staged, the insert leaves
    the new rows only. *)
Lemma replace_params_all (s : Store) (rows : list Param.t) :
  params (add_params rows (delete_params (params s) (select_params s).2)) = rows.
Proof.
  unfold add_params, delete_params, select_params. cbn [params param_calls snd].
  rewrite staged_delete, staged_select, filter_none; [reflexivity|].
  apply Forall_forall. intros p Hp Hn. apply Hn, elem_of_app. right. exact Hp.
Qed.

Lemma fetch_params_cached fc (s : Store) :
  params s ≠ [] →
  fetch_params fc false s = (ok false, mkStore (params s) (param_calls s ++ [SelectParams])).
Proof.
  intros Hne. unfold fetch_params, select_params.
  rewrite bool_decide_eq_false_2 by exact Hne. reflexivity.
Qed.



Example fetch_params_success :
  (fetch_params node_up true sample_store).1 = ok true
  ∧ params (fetch_params node_up true sample_store).2 = [Param.mk "project" "CMIP6"].
Proof. vm_compute. split; reflexivity. Qed.

(** ** String operations *)

Section PyStrFacts.
Import PyStr.

Lemma strip_prefix_app (p r : string) : strip_prefix p (p +:+ r) = Some r.
Proof.
  induction p as [|a p IH]; simpl; [reflexivity|].
  rewrite decide_True by reflexivity. exact IH.
Qed.

Lemma removeprefix_app (p r : string) : removeprefix (p +:+ r) p = r.
Proof. unfold removeprefix. rewrite strip_prefix_app. reflexivity. Qed.

Lemma startswith_char (c d : ascii) (s : string) :
  startswith (String d s) (String c EmptyString) = bool_decide (c = d).
Proof.
  unfold startswith. simpl. destruct (decide (c = d)) as [->|Hne].
  - rewrite bool_decide_eq_true_2 by reflexivity. reflexivity.
  - rewrite bool_decide_eq_false_2 by exact Hne. reflexivity.
Qed.

Lemma has_char_cons_false (c d : ascii) (s : string) :
  has_char c (String d s) = false → d ≠ c ∧ has_char c s = false.
Proof.
  simpl. intros H. apply orb_false_iff in H as [H1 H2].
  apply bool_decide_eq_false in H1. split; assumption.
Qed.

Lemma partition0_cons (d : ascii) (s sep : string) :
  partition0 (String d s) sep
  = if startswith (String d s) sep then EmptyString
    else String d (partition0 s sep).
Proof. reflexivity. Qed.

Lemma rsplit_last_cons (d : ascii) (s sep : string) :
  rsplit_last (String d s) sep
  = match rsplit_last s sep with
    | Some (a, b) => Some (String d a, b)
    | None => match strip_prefix sep (String d s) with
              | Some r => Some (EmptyString, r)
              | None => None
              end
    end.
Proof. reflexivity. Qed.

Lemma append_cons (d : ascii) (a b : string) :
  String d a +:+ b = String d (a +:+ b).
Proof. reflexivity. Qed.

Lemma append_empty_l (b : string) : EmptyString +:+ b = b.
Proof. reflexivity. Qed.

Lemma append_empty_r (a : string) : a +:+ EmptyString = a.
Proof.
  induction a as [|d a IH]; [reflexivity|].
  rewrite append_cons, IH. reflexivity.
Qed.

Lemma append_assoc (a b c : string) : (a +:+ b) +:+ c = a +:+ (b +:+ c).
Proof.
  induction a as [|d a IH]; [reflexivity|].
  rewrite !append_cons, IH. reflexivity.
Qed.

Lemma partition0_whole (c : ascii) (a : string) :
  has_char c a = false → partition0 a (String c EmptyString) = a.
Proof.
  induction a as [|d a IH]; intros H; [reflexivity|].
  apply has_char_cons_false in H as [Hd Ha].
  rewrite partition0_cons, startswith_char.
  rewrite bool_decide_eq_false_2 by congruence.
  rewrite IH by exact Ha. reflexivity.
Qed.

Lemma partition0_before (c : ascii) (a r : string) :
  has_char c a = false →
  partition0 (a +:+ String c r) (String c EmptyString) = a.
Proof.
  induction a as [|d a IH]; intros H.
  - rewrite append_empty_l, partition0_cons, startswith_char.
    rewrite bool_decide_eq_true_2 by reflexivity. reflexivity.
  - apply has_char_cons_false in H as [Hd Ha].
    rewrite append_cons, partition0_cons, startswith_char.
    rewrite bool_decide_eq_false_2 by congruence.
    rewrite IH by exact Ha. reflexivity.
Qed.

Lemma strip_prefix_char (c d : ascii) (s : string) :
  strip_prefix (String c EmptyString) (String d s)
  = if decide (c = d) then Some s else None.
Proof. reflexivity. Qed.

Lemma rsplit_last_none (c : ascii) (b : string) :
  has_char c b = false → rsplit_last b (String c EmptyString) = None.
Proof.
  induction b as [|d b IH]; intros H; [reflexivity|].
  apply has_char_cons_false in H as [Hd Hb].
  rewrite rsplit_last_cons, IH by exact Hb.
  rewrite strip_prefix_char, decide_False by congruence. reflexivity.
Qed.

Lemma rsplit_last_app (c : ascii) (a b : string) :
  has_char c b = false →
  rsplit_last (a +:+ String c b) (String c EmptyString) = Some (a, b).
Proof.
  intros Hb. induction a as [|d a IH].
  - rewrite append_empty_l, rsplit_last_cons.
    rewrite rsplit_last_none by exact Hb.
    rewrite strip_prefix_char, decide_True by reflexivity. reflexivity.
  - rewrite append_cons, rsplit_last_cons, IH. reflexivity.
Qed.

Lemma rsplit1_app (c : ascii) (a b : string) :
  has_char c b = false →
  rsplit1 (a +:+ String c b) (String c EmptyString) = [a; b].
Proof. intros Hb. unfold rsplit1. rewrite rsplit_last_app by exact Hb. reflexivity. Qed.

End PyStrFacts.

(** ** Artifact resolution *)

Lemma partition0_qualifier (a q : string) :
  PyStr.has_char "|" a = false → qualifier q →
  PyStr.partition0 (a +:+ q) "|" = a.
Proof.
  intros Ha [->|[rest ->]].
  - rewrite append_empty_r. apply partition0_whole; exact Ha.
  - apply partition0_before; exact Ha.
Qed.

Lemma has_char_app (c : ascii) (a b : string) :
  PyStr.has_char c (a +:+ b) = PyStr.has_char c a || PyStr.has_char c b.
Proof.
  induction a as [|d a IH]; simpl; [reflexivity|].
  rewrite IH. apply orb_assoc.
Qed.

(** C6.  For a raw hit whose dataset identity is [D.V], with or without a
    replica qualifier after a bar, where [V] holds no dot, and whose
    filename is [F]: [file_id] is [D.V.F], [master_id] is [D.F], [version]
    is [V], and the stored dataset identity and URL are the texts before
    the first bar. *)
Theorem from_dict_identifiers find_str find_int (raw : gmap string PyVal)
    (D V F node u media data_node checksum checksum_type local_path : string)
    (size : Z) (found : PyVal) :
  PyStr.has_char "|" D = false →
  PyStr.has_char "|" V = false →
  PyStr.has_char "." V = false →
  PyStr.has_char "|" u = false →
  qualifier node → qualifier media →
  raw_str find_str raw "dataset_id" = ok (D +:+ "." +:+ V +:+ node) →
  raw_str find_str raw "title" = ok F →
  raw_str find_str raw "url" = ok (u +:+ media) →
  raw_str find_str raw "data_node" = ok data_node →
  raw_str find_str raw "checksum" = ok checksum →
  raw_str find_str raw "checksum_type" = ok checksum_type →
  raw !! "size" = Some found → find_int found = ok size →
  get_local_path find_str raw V = ok local_path →
  from_dict find_str find_int raw
  = ok {| File.file_id := D +:+ "." +:+ V +:+ "." +:+ F;
          File.dataset_id := D +:+ "." +:+ V;
          File.master_id := D +:+ "." +:+ F;
          File.url := u;
          File.version := V;
          File.filename := F;
          File.local_path := local_path;
          File.data_node := data_node;
          File.checksum := checksum;
          File.checksum_type := checksum_type;
          File.size := size;
          File.status := new;
          File.raw := raw |}.
Proof.
  intros HD HV HVdot Hu Hnode Hmedia Hds Ht Hurl Hdn Hck Hct Hsz Hint Hlp.
  unfold from_dict.
  rewrite Hds, Ht, Hurl, Hdn, Hck, Hct. cbn [mbind exc_bind ebind ok].
  unfold getitem. rewrite Hsz. cbn [mbind exc_bind ebind ok]. rewrite Hint.
  cbn [mbind exc_bind ebind ok].
  assert (PyStr.partition0 (D +:+ "." +:+ V +:+ node) "|" = D +:+ "." +:+ V) as ->.
  { replace (D +:+ "." +:+ V +:+ node) with ((D +:+ "." +:+ V) +:+ node)
      by (rewrite !append_assoc; reflexivity).
    apply partition0_qualifier; [|exact Hnode].
    rewrite has_char_app, HD. exact HV. }
  rewrite (partition0_qualifier u media Hu Hmedia).
  change (D +:+ "." +:+ V) with (D +:+ String "." V).
  rewrite (rsplit1_app "." D V HVdot).
  cbn [PyStr.index lookup list_lookup mbind exc_bind ebind ok].
  rewrite Hlp. cbn [mbind exc_bind ebind ok].
  unfold PyStr.join. rewrite append_assoc. reflexivity.
Qed.

Lemma from_dict_identifiers_witness :
  from_dict first_str first_int sample_raw = ok (sample_file new).
Proof.
  apply (from_dict_identifiers first_str first_int sample_raw
           "CMIP6.CMIP.IPSL.tas.gr" "v20180803" "tas_Amon.nc"
           "|vesg.ipsl.upmc.fr" "https://vesg.ipsl.upmc.fr/tas_Amon.nc"
           "|application/netcdf|HTTPServer" "vesg.ipsl.upmc.fr" "0a1b2c"
           "SHA256" "CMIP6/tas/v20180803" 1024 (VInt 1024)).
  - reflexivity.
  - reflexivity.
  - reflexivity.
  - reflexivity.
  - right. eexists. reflexivity.
  - right. eexists. reflexivity.
  - vm_compute. reflexivity.
  - vm_compute. reflexivity.
  - vm_compute. reflexivity.
  - vm_compute. reflexivity.
  - vm_compute. reflexivity.
  - vm_compute. reflexivity.
  - vm_compute. reflexivity.
  - reflexivity.
  - vm_compute. reflexivity.
Defined.

(** ** Local-path derivation *)

Lemma getitem_fmap_flatten (raw : gmap string PyVal) (k : string) :
  (flatten <$> raw) !! k = flatten <$> raw !! k.
Proof. apply lookup_fmap. Qed.

Lemma cordex_absent (flat_raw : gmap string PyVal) :
  flat_raw !! "rcm_name" = None → cordex flat_raw = ok flat_raw.
Proof.
  intros H. unfold cordex. rewrite decide_False; [reflexivity|].
  rewrite H. intros [? ?]; discriminate.
Qed.

Lemma cordex_synthesizes (flat_raw : gmap string PyVal) (institute rcm_name : string) :
  flat_raw !! "institute" = Some (VStr institute) →
  flat_raw !! "rcm_name" = Some (VStr rcm_name) →
  cordex flat_raw
  = ok (<["rcm_model" := VStr (institute +:+ "-" +:+ rcm_name)]> flat_raw).
Proof.
  intros Hi Hr. unfold cordex, getitem.
  rewrite decide_True by (rewrite Hr; eexists; reflexivity).
  rewrite Hi, Hr. cbn [mbind exc_bind ebind ok py_add].
  rewrite append_assoc. reflexivity.
Qed.

Lemma cordex_no_institute (flat_raw : gmap string PyVal) :
  is_Some (flat_raw !! "rcm_name") → flat_raw !! "institute" = None →
  cordex flat_raw = raise (KeyError "institute").
Proof.
  intros Hr Hi. unfold cordex, getitem.
  rewrite decide_True by exact Hr. rewrite Hi. reflexivity.
Qed.

(** C10.  For every record that has the key [rcm_name] and lacks the key
    [institute], [get_local_path] raises [KeyError]: of [institute] when the
    directory template has been read, the synthesis being attempted
    whenever [rcm_name] is present. *)
Theorem get_local_path_cordex_keyerror find_str (raw : gmap string PyVal)
    (version : string) :
  is_Some (raw !! "rcm_name") →
  raw !! "institute" = None →
  (∀ found, raw !! "directory_format_template_" = Some found →
            ∃ template, find_str (flatten found) = ok template) →
  ∃ key, get_local_path find_str raw version = raise (KeyError key)
         ∧ (is_Some (raw !! "directory_format_template_") → key = "institute").
Proof.
  intros Hr Hi Hfind. unfold get_local_path, getitem.
  rewrite getitem_fmap_flatten.
  destruct (raw !! "directory_format_template_") as [found|] eqn:Ht.
  - destruct (Hfind found eq_refl) as [template Htemplate].
    exists "institute". split; [|reflexivity].
    cbn [fmap option_fmap option_map mbind exc_bind ebind ok].
    rewrite Htemplate. cbn [mbind exc_bind ebind ok].
    rewrite cordex_no_institute; [reflexivity| |].
    + rewrite lookup_delete_ne by discriminate.
      rewrite getitem_fmap_flatten. destruct Hr as [v ->]. eexists; reflexivity.
    + rewrite lookup_delete_ne by discriminate.
      rewrite getitem_fmap_flatten, Hi. reflexivity.
  - exists "directory_format_template_". split; [reflexivity|].
    intros [? ?]; discriminate.
Qed.

Lemma get_local_path_cordex_keyerror_witness :
  ∃ key, get_local_path first_str cordex_raw "v20180803" = raise (KeyError key)
         ∧ (is_Some (cordex_raw !! "directory_format_template_") → key = "institute").
Proof.
  apply (get_local_path_cordex_keyerror first_str cordex_raw "v20180803").
  - vm_compute. eexists; reflexivity.
  - vm_compute. reflexivity.
  - intros found Hfound. vm_compute in Hfound.
    injection Hfound as <-. eexists. vm_compute. reflexivity.
Defined.

Section Templates.
Import PyStr.

Lemma free_of_has_char (forbidden s : string) (c : ascii) :
  free_of forbidden s = true → has_char c forbidden = true →
  has_char c s = false.
Proof.
  induction forbidden as [|d f IH]; simpl; [discriminate|].
  intros Hfree Hc. apply andb_true_iff in Hfree as [Hd Hf].
  apply orb_true_iff in Hc as [Hc|Hc].
  - apply bool_decide_eq_true in Hc. subst d.
    apply negb_true_iff in Hd. exact Hd.
  - apply IH; assumption.
Qed.

Lemma replace_go_cons old new (c : ascii) (s : string) :
  replace_go old new 0 (String c s)
  = if startswith (String c s) old
    then new +:+ replace_go old new (String.length old - 1) s
    else String c (replace_go old new 0 s).
Proof. reflexivity. Qed.

Lemma startswith_two (a b c : ascii) (s : string) :
  c ≠ a → startswith (String c s) (String a (String b EmptyString)) = false.
Proof.
  intros Hne. unfold startswith. simpl.
  rewrite decide_False by congruence. reflexivity.
Qed.

(** Text without the first character of the pattern is copied. *)
Lemma replace_go_pass (a b : ascii) (new s rest : string) :
  has_char a s = false →
  replace_go (String a (String b EmptyString)) new 0 (s +:+ rest)
  = s +:+ replace_go (String a (String b EmptyString)) new 0 rest.
Proof.
  induction s as [|c s IH]; intros H; [reflexivity|].
  apply has_char_cons_false in H as [Hc Hs].
  rewrite !append_cons, replace_go_cons, startswith_two by exact Hc.
  rewrite IH by exact Hs. reflexivity.
Qed.

(** An occurrence of the pattern is replaced. *)
Lemma replace_go_hit (a b : ascii) (new rest : string) :
  replace_go (String a (String b EmptyString)) new 0 (String a (String b rest))
  = new +:+ replace_go (String a (String b EmptyString)) new 0 rest.
Proof.
  rewrite replace_go_cons. unfold startswith. simpl.
  rewrite !decide_True by reflexivity. reflexivity.
Qed.

Lemma replace_open (segs : list Segment) (rest : string) :
  Forall segment_ok segs →
  replace_go "%(" "{" 0 (assemble render_segment segs +:+ rest)
  = assemble half_converted segs +:+ replace_go "%(" "{" 0 rest.
Proof.
  induction 1 as [|seg segs Hseg _ IH]; [reflexivity|].
  cbn [assemble foldr]. fold (assemble render_segment segs).
  fold (assemble half_converted segs).
  rewrite !append_assoc.
  destruct seg as [text|name]; cbn [render_segment half_converted segment_ok] in *.
  - rewrite replace_go_pass, IH; [reflexivity|].
    apply (free_of_has_char _ _ _ Hseg). reflexivity.
  - destruct Hseg as [Hfree _].
    change ("%(" +:+ name +:+ ")s") with (String "%" (String "(" (name +:+ ")s"))).
    rewrite !append_cons, replace_go_hit.
    rewrite append_assoc, replace_go_pass
      by (apply (free_of_has_char _ _ _ Hfree); reflexivity).
    change (")s" +:+ (assemble render_segment segs +:+ rest))
      with (String ")" (String "s" (assemble render_segment segs +:+ rest))).
    rewrite replace_go_cons, startswith_two by discriminate.
    rewrite replace_go_cons, startswith_two by discriminate.
    rewrite IH. rewrite !append_assoc. reflexivity.
Qed.

Lemma replace_close (segs : list Segment) (rest : string) :
  Forall segment_ok segs →
  replace_go ")s" "}" 0 (assemble half_converted segs +:+ rest)
  = assemble converted segs +:+ replace_go ")s" "}" 0 rest.
Proof.
  induction 1 as [|seg segs Hseg _ IH]; [reflexivity|].
  cbn [assemble foldr]. fold (assemble half_converted segs).
  fold (assemble converted segs).
  rewrite !append_assoc.
  destruct seg as [text|name]; cbn [converted half_converted segment_ok] in *.
  - rewrite replace_go_pass, IH; [reflexivity|].
    apply (free_of_has_char _ _ _ Hseg). reflexivity.
  - destruct Hseg as [Hfree _].
    change ("{" +:+ name +:+ ")s") with (String "{" (name +:+ ")s")).
    rewrite !append_cons, replace_go_cons, startswith_two by discriminate.
    rewrite append_assoc, replace_go_pass
      by (apply (free_of_has_char _ _ _ Hfree); reflexivity).
    change (")s" +:+ (assemble half_converted segs +:+ rest))
      with (String ")" (String "s" (assemble half_converted segs +:+ rest))).
    rewrite replace_go_hit, IH.
    change ("{" +:+ name +:+ "}") with (String "{" (name +:+ "}")).
    rewrite !append_cons, !append_assoc. reflexivity.
Qed.


Lemma free_of_cons (forbidden : string) (c : ascii) (s : string) :
  free_of forbidden (String c s)
  = negb (has_char c forbidden) && free_of forbidden s.
Proof.
  induction forbidden as [|d f IH]; [reflexivity|].
  cbn [free_of has_char]. rewrite IH.
  rewrite (bool_decide_ext (c = d) (d = c)) by (split; congruence).
  destruct (bool_decide (d = c)), (has_char d s), (has_char c f); reflexivity.
Qed.

Lemma format_go_literal kwargs (c : ascii) (s : string) :
  c ≠ "{"%char → c ≠ "}"%char →
  format_go kwargs Literal (String c s)
  = r ← format_go kwargs Literal s; ok (String c r).
Proof.
  intros Ho Hc. cbn [format_go].
  rewrite !decide_False by assumption. reflexivity.
Qed.

Lemma format_go_text kwargs (s rest : string) :
  free_of "{}" s = true →
  format_go kwargs Literal (s +:+ rest)
  = r ← format_go kwargs Literal rest; ok (s +:+ r).
Proof.
  induction s as [|c s IH]; intros Hfree.
  - rewrite append_empty_l. destruct (format_go kwargs Literal rest); reflexivity.
  - rewrite free_of_cons in Hfree. apply andb_true_iff in Hfree as [Hc Hs].
    apply negb_true_iff in Hc.
    assert (c ≠ "{"%char ∧ c ≠ "}"%char) as [Ho Hcl].
    { split; intros ->; discriminate Hc. }
    rewrite append_cons, format_go_literal, IH by assumption.
    destruct (format_go kwargs Literal rest); reflexivity.
Qed.

Lemma name_char (c : ascii) :
  has_char c "%(){}.[!:" = false →
  c ≠ "{"%char ∧ c ≠ "}"%char ∧ field_operator c = false.
Proof.
  intros H. repeat split.
  - intros ->; discriminate H.
  - intros ->; discriminate H.
  - unfold field_operator.
    rewrite !bool_decide_eq_false_2; [reflexivity|..]; intros ->; discriminate H.
Qed.

Lemma format_go_field kwargs (acc name rest : string) :
  free_of "%(){}.[!:" name = true →
  format_go kwargs (Field acc) (name +:+ String "}" rest)
  = v ← field_value kwargs (acc +:+ name);
    r ← format_go kwargs Literal rest; ok (v +:+ r).
Proof.
  revert acc. induction name as [|c name IH]; intros acc Hfree.
  - rewrite append_empty_l, append_empty_r. reflexivity.
  - rewrite free_of_cons in Hfree. apply andb_true_iff in Hfree as [Hc Hname].
    apply negb_true_iff, name_char in Hc as (Ho & Hcl & Hop).
    rewrite append_cons. cbn [format_go].
    rewrite !decide_False by assumption. rewrite Hop.
    rewrite IH by exact Hname. rewrite append_assoc. reflexivity.
Qed.

Lemma format_go_hole kwargs (name rest : string) :
  free_of "%(){}.[!:" name = true → all_digits name = false →
  format_go kwargs Literal (String "{" (name +:+ String "}" rest))
  = v ← field_value kwargs name;
    r ← format_go kwargs Literal rest; ok (v +:+ r).
Proof.
  intros Hfree Hdigits. destruct name as [|c name]; [discriminate Hdigits|].
  pose proof Hfree as Hfree'.
  rewrite free_of_cons in Hfree'. apply andb_true_iff in Hfree' as [Hc Hname].
  apply negb_true_iff, name_char in Hc as (Ho & Hcl & Hop).
  rewrite append_cons. cbn [format_go].
  rewrite decide_True by reflexivity.
  rewrite !decide_False by assumption. rewrite Hop.
  rewrite format_go_field by exact Hname. reflexivity.
Qed.

Lemma format_segments kwargs (segs : list Segment) (pieces : list string) :
  Forall segment_ok segs →
  Forall2 (substituted kwargs) segs pieces →
  format_go kwargs Literal (assemble converted segs) = ok (concat_str pieces).
Proof.
  intros Hok Hsub. induction Hsub as [|seg piece segs pieces Hseg _ IH];
    [reflexivity|].
  apply Forall_cons in Hok as [Hsegok Hok]. specialize (IH Hok).
  cbn [assemble foldr concat_str]. fold (assemble converted segs).
  fold (concat_str pieces).
  destruct seg as [text|name]; cbn [converted segment_ok substituted] in *.
  - subst piece. rewrite format_go_text, IH; [reflexivity|].
    cbn [free_of].
    rewrite (free_of_has_char _ _ "{" Hsegok) by reflexivity.
    rewrite (free_of_has_char _ _ "}" Hsegok) by reflexivity.
    reflexivity.
  - destruct Hsegok as [Hfree Hdigits]. destruct Hseg as (v & Hv & Hstr).
    change ("{" +:+ name +:+ "}") with (String "{" (name +:+ "}")).
    rewrite append_cons, append_assoc.
    change ("}" +:+ assemble converted segs)
      with (String "}" (assemble converted segs)).
    rewrite format_go_hole, IH by assumption.
    unfold field_value. rewrite Hdigits, Hv, Hstr. reflexivity.
Qed.

End Templates.

(** C7.  For a template made of the root prefix followed by literal text
    and placeholders [%(name)s], [get_local_path] returns the text in which
    the prefix is gone and every placeholder is replaced by the value of its
    name among the flattened fields of the record and the resolved version.
    The witness is the example of the spec, which gives [x/y/v1]. *)
Theorem get_local_path_template find_str (raw kwargs : gmap string PyVal)
    (version : string) (found : PyVal) (segs : list Segment)
    (pieces : list string) :
  Forall segment_ok segs →
  raw !! "directory_format_template_" = Some found →
  find_str (flatten found) = ok ("%(root)s/" +:+ python_template segs) →
  cordex (delete "version" (flatten <$> raw)) = ok kwargs →
  Forall2 (substituted (<["version" := VStr version]> kwargs)) segs pieces →
  get_local_path find_str raw version = ok (concat_str pieces).
Proof.
  intros Hok Hraw Hfind Hcordex Hsub.
  unfold get_local_path, getitem.
  rewrite getitem_fmap_flatten, Hraw.
  cbn [fmap option_fmap option_map mbind exc_bind ebind ok].
  rewrite Hfind. cbn [mbind exc_bind ebind ok].
  rewrite Hcordex. cbn [mbind exc_bind ebind ok].
  rewrite removeprefix_app. unfold PyStr.replace, python_template, PyStr.format.
  rewrite <- (append_empty_r (assemble render_segment segs)).
  rewrite replace_open by exact Hok.
  rewrite replace_close by exact Hok.
  cbn [PyStr.replace_go]. rewrite append_empty_r.
  apply format_segments; assumption.
Qed.

Lemma get_local_path_template_witness :
  get_local_path first_str spec_raw "v1" = ok "x/y/v1".
Proof.
  apply (get_local_path_template first_str spec_raw
           (delete "version" (flatten <$> spec_raw)) "v1"
           (VStr "%(root)s/%(a)s/%(b)s/%(version)s")
           [Hole "a"; Lit "/"; Hole "b"; Lit "/"; Hole "version"]
           ["x"; "/"; "y"; "/"; "v1"]).
  - repeat constructor.
  - vm_compute. reflexivity.
  - reflexivity.
  - apply cordex_absent. vm_compute. reflexivity.
  - repeat constructor.
    + exists (VStr "x"). split; [vm_compute|]; reflexivity.
    + exists (VStr "y"). split; [vm_compute|]; reflexivity.
    + exists (VStr "v1"). split; [vm_compute|]; reflexivity.
Defined.

(** ** Programs on the heap *)

Section HeapFacts.
Local Close Scope string_scope.

Lemma py_bind_run {A B} (m : Py A) (k : A → Py B) (h h1 : Heap) (a : A) :
  m h = Some (a, h1) → (m ≫= k) h = k a h1.
Proof. intros H. unfold mbind, py_bind. rewrite H. reflexivity. Qed.

Lemma heap_eta (h : Heap) :
  mkHeap (tag_objs h) (list_objs h) (options_objs h) (selection_objs h)
         (query_objs h) = h.
Proof. destruct h; reflexivity. Qed.

Lemma get_tag_run (h : Heap) (l : loc) x : tag_objs h !! l = Some x → get_tag l h = Some (x, h).
Proof. intros H. unfold get_tag. rewrite H. reflexivity. Qed.
Lemma get_list_run (h : Heap) (l : loc) x : list_objs h !! l = Some x → get_list l h = Some (x, h).
Proof. intros H. unfold get_list. rewrite H. reflexivity. Qed.
Lemma get_options_run (h : Heap) (l : loc) x :
  options_objs h !! l = Some x → get_options l h = Some (x, h).
Proof. intros H. unfold get_options. rewrite H. reflexivity. Qed.
Lemma get_selection_run (h : Heap) (l : loc) x :
  selection_objs h !! l = Some x → get_selection l h = Some (x, h).
Proof. intros H. unfold get_selection. rewrite H. reflexivity. Qed.
Lemma get_query_run (h : Heap) (l : loc) x : query_objs h !! l = Some x → get_query l h = Some (x, h).
Proof. intros H. unfold get_query. rewrite H. reflexivity. Qed.

Lemma modify_tag_run (h : Heap) (l : loc) x f :
  tag_objs h !! l = Some x →
  modify_tag l f h
  = Some ((), mkHeap (<[l := f x]> (tag_objs h)) (list_objs h) (options_objs h)
                     (selection_objs h) (query_objs h)).
Proof. intros H. unfold modify_tag. rewrite H. reflexivity. Qed.
Lemma modify_list_run (h : Heap) (l : loc) x f :
  list_objs h !! l = Some x →
  modify_list l f h
  = Some ((), mkHeap (tag_objs h) (<[l := f x]> (list_objs h)) (options_objs h)
                     (selection_objs h) (query_objs h)).
Proof. intros H. unfold modify_list. rewrite H. reflexivity. Qed.
Lemma modify_options_run (h : Heap) (l : loc) x f :
  options_objs h !! l = Some x →
  modify_options l f h
  = Some ((), mkHeap (tag_objs h) (list_objs h) (<[l := f x]> (options_objs h))
                     (selection_objs h) (query_objs h)).
Proof. intros H. unfold modify_options. rewrite H. reflexivity. Qed.
Lemma modify_selection_run (h : Heap) (l : loc) x f :
  selection_objs h !! l = Some x →
  modify_selection l f h
  = Some ((), mkHeap (tag_objs h) (list_objs h) (options_objs h)
                     (<[l := f x]> (selection_objs h)) (query_objs h)).
Proof. intros H. unfold modify_selection. rewrite H. reflexivity. Qed.
Lemma modify_query_run (h : Heap) (l : loc) x f :
  query_objs h !! l = Some x →
  modify_query l f h
  = Some ((), mkHeap (tag_objs h) (list_objs h) (options_objs h)
                     (selection_objs h) (<[l := f x]> (query_objs h))).
Proof. intros H. unfold modify_query. rewrite H. reflexivity. Qed.

(** Updating an object keeps every location readable. *)
Lemma readable_insert {A} (l : list A) (i j : nat) (x : A) :
  is_Some (l !! j) → is_Some (<[i := x]> l !! j).
Proof. rewrite !lookup_lt_is_Some, length_insert. auto. Qed.

Lemma readable_app {A} (l k : list A) (j : nat) :
  is_Some (l !! j) → is_Some ((l ++ k) !! j).
Proof. rewrite !lookup_lt_is_Some, length_app. lia. Qed.

Section Hashing.
Variable sha1 : string → string.

(** The first loop of [compute_sha] changes the [sha] of tags only. *)
Lemma hash_tags_run (tags : list loc) (h : Heap) :
  Forall (λ l, is_Some (tag_objs h !! l)) tags →
  ∃ T, py_for tags (λ tag, modify_tag tag (Tag_compute_sha sha1)) h
       = Some ((), mkHeap T (list_objs h) (options_objs h)
                          (selection_objs h) (query_objs h))
       ∧ ∀ l : loc, Tag.name <$> T !! l = Tag.name <$> tag_objs h !! l.
Proof.
  revert h. induction tags as [|tag tags IH]; intros h Hall.
  - exists (tag_objs h). rewrite heap_eta. split; reflexivity.
  - apply Forall_cons in Hall as [[x Hx] Hall].
    cbn [py_for]. rewrite (py_bind_run _ _ _ _ _ (modify_tag_run h tag x _ Hx)).
    destruct (IH (mkHeap (<[tag := Tag_compute_sha sha1 x]> (tag_objs h))
                         (list_objs h) (options_objs h) (selection_objs h)
                         (query_objs h))) as (T & Hrun & Hnames).
    { eapply Forall_impl; [exact Hall|]. intros l Hl. cbn.
      apply readable_insert; exact Hl. }
    exists T. split; [exact Hrun|].
    intros l. rewrite Hnames. cbn [tag_objs].
    destruct (decide (tag = l)) as [->|Hne].
    + rewrite list_lookup_insert_eq by (eapply lookup_lt_Some; exact Hx).
      rewrite Hx. reflexivity.
    + rewrite list_lookup_insert_ne by exact Hne. reflexivity.
Qed.

Variable options_as_bytes : gmap string FlagValue → string.
Variable selection_as_bytes : gmap string (list string) → string.
Variable repr : string → string.

Lemma as_bytes_run (self : loc) (h : Heap) (q : Query.t)
    (o : Options.t) (s : Selection.t) :
  query_objs h !! self = Some q →
  options_objs h !! Query.options q = Some o →
  selection_objs h !! Query.selection q = Some s →
  _as_bytes repr self h
  = Some (str_tuple3 repr (Query.require q) (Options.sha o) (Selection.sha s), h).
Proof.
  intros Hq Ho Hs. unfold _as_bytes.
  rewrite (py_bind_run _ _ _ _ _ (get_query_run h self q Hq)).
  rewrite (py_bind_run _ _ _ _ _ (get_options_run h _ o Ho)).
  rewrite (py_bind_run _ _ _ _ _ (get_selection_run h _ s Hs)).
  reflexivity.
Qed.

Lemma compute_sha_run (self : loc) (h : Heap) (q : Query.t)
    (tags : list loc) (o : Options.t) (s : Selection.t) :
  query_objs h !! self = Some q →
  list_objs h !! Query.tags q = Some tags →
  Forall (λ l, is_Some (tag_objs h !! l)) tags →
  options_objs h !! Query.options q = Some o →
  selection_objs h !! Query.selection q = Some s →
  ∃ T, compute_sha sha1 options_as_bytes selection_as_bytes repr self h
       = Some ((), mkHeap T (list_objs h)
                 (<[Query.options q := Options_compute_sha sha1 options_as_bytes o]>
                    (options_objs h))
                 (<[Query.selection q := Selection_compute_sha sha1 selection_as_bytes s]>
                    (selection_objs h))
                 (<[self := Query.set_sha
                              (identity sha1 options_as_bytes selection_as_bytes repr
                                 (Query.require q) (Options.flags o)
                                 (Selection.facets s)) q]>
                    (query_objs h)))
       ∧ ∀ l : loc, Tag.name <$> T !! l = Tag.name <$> tag_objs h !! l.
Proof.
  intros Hq Htags Hall Ho Hs.
  destruct (hash_tags_run tags h Hall) as (T & Hrun & Hnames).
  exists T. split; [|exact Hnames].
  unfold compute_sha.
  rewrite (py_bind_run _ _ _ _ _ (get_query_run h self q Hq)).
  rewrite (py_bind_run _ _ _ _ _ (get_list_run h _ tags Htags)).
  rewrite (py_bind_run _ _ _ _ _ Hrun).
  erewrite py_bind_run by (apply modify_options_run; exact Ho).
  erewrite py_bind_run by (apply modify_selection_run; exact Hs).
  cbn [tag_objs list_objs options_objs selection_objs query_objs].
  erewrite py_bind_run.
  2:{ apply (as_bytes_run self _ q); cbn.
      - exact Hq.
      - apply list_lookup_insert_eq. eapply lookup_lt_Some; exact Ho.
      - apply list_lookup_insert_eq. eapply lookup_lt_Some; exact Hs. }
  erewrite modify_query_run by exact Hq.
  reflexivity.
Qed.

Lemma view_inv (h : Heap) (q : loc) (v : QueryView) :
  view h q = Some v →
  ∃ x tags names o s,
    query_objs h !! q = Some x
    ∧ list_objs h !! Query.tags x = Some tags
    ∧ mapM (λ l, Tag.name <$> tag_objs h !! l) tags = Some names
    ∧ options_objs h !! Query.options x = Some o
    ∧ selection_objs h !! Query.selection x = Some s
    ∧ v = mkQueryView names (Query.transient x) (Query.require x)
                      (Options.flags o) (Selection.facets s).
Proof.
  unfold view. intros H.
  destruct (query_objs h !! q) as [x|] eqn:Hq; [|discriminate].
  cbn [mbind option_bind] in H.
  destruct (list_objs h !! Query.tags x) as [tags|] eqn:Ht; [|discriminate].
  cbn [mbind option_bind] in H.
  destruct (mapM _ tags) as [names|] eqn:Hn; [|discriminate].
  cbn [mbind option_bind] in H.
  destruct (options_objs h !! Query.options x) as [o|] eqn:Ho; [|discriminate].
  cbn [mbind option_bind] in H.
  destruct (selection_objs h !! Query.selection x) as [s|] eqn:Hs; [|discriminate].
  cbn [mbind option_bind] in H. injection H as <-.
  exists x, tags, names, o, s. repeat split; assumption || reflexivity.
Qed.

Lemma view_intro (h : Heap) (q : loc) x tags names o s :
  query_objs h !! q = Some x →
  list_objs h !! Query.tags x = Some tags →
  mapM (λ l, Tag.name <$> tag_objs h !! l) tags = Some names →
  options_objs h !! Query.options x = Some o →
  selection_objs h !! Query.selection x = Some s →
  view h q = Some (mkQueryView names (Query.transient x) (Query.require x)
                               (Options.flags o) (Selection.facets s)).
Proof.
  intros Hq Ht Hn Ho Hs. unfold view.
  rewrite Hq. cbn [mbind option_bind]. rewrite Ht. cbn [mbind option_bind].
  rewrite Hn. cbn [mbind option_bind]. rewrite Ho. cbn [mbind option_bind].
  rewrite Hs. reflexivity.
Qed.

Lemma names_readable (T : list Tag.t) (tags : list loc) (names : list string) :
  mapM (λ l, Tag.name <$> T !! l) tags = Some names →
  Forall (λ l, is_Some (T !! l)) tags.
Proof.
  intros H. assert (is_Some (mapM (λ l, Tag.name <$> T !! l) tags)) as Hsome
    by (rewrite H; eexists; reflexivity).
  apply mapM_is_Some_1 in Hsome.
  eapply Forall_impl; [exact Hsome|].
  intros l Hl. cbn in Hl. apply fmap_is_Some in Hl. exact Hl.
Qed.

Lemma names_ext (T T' : list Tag.t) (tags : list loc) :
  (∀ l : loc, Tag.name <$> T' !! l = Tag.name <$> T !! l) →
  mapM (λ l, Tag.name <$> T' !! l) tags
  = mapM (λ l, Tag.name <$> T !! l) tags.
Proof.
  intros Hext. induction tags as [|l tags IH]; [reflexivity|].
  cbn [mapM]. rewrite Hext, IH. reflexivity.
Qed.

(** [compute_sha] stores the identity of the triple and changes nothing
    that [view] shows. *)
Lemma compute_sha_identity (h : Heap) (q : loc) (v : QueryView) :
  view h q = Some v →
  ∃ h', compute_sha sha1 options_as_bytes selection_as_bytes repr q h
        = Some ((), h')
        ∧ sha_of h' q
          = Some (identity sha1 options_as_bytes selection_as_bytes repr
                    (v_require v) (v_options v) (v_selection v))
        ∧ view h' q = Some v.
Proof.
  intros Hview.
  destruct (view_inv h q v Hview)
    as (x & tags & names & o & s & Hq & Ht & Hn & Ho & Hs & ->).
  destruct (compute_sha_run q h x tags o s Hq Ht (names_readable _ _ _ Hn) Ho Hs)
    as (T & Hrun & Hnames).
  eexists. split; [exact Hrun|].
  assert (q < length (query_objs h)) as Hlt by (eapply lookup_lt_Some; exact Hq).
  split.
  - unfold sha_of. cbn [query_objs].
    rewrite list_lookup_insert_eq by exact Hlt. reflexivity.
  - rewrite (view_intro _ q (Query.set_sha
               (identity sha1 options_as_bytes selection_as_bytes repr
                  (Query.require x) (Options.flags o) (Selection.facets s)) x)
               tags names (Options_compute_sha sha1 options_as_bytes o)
               (Selection_compute_sha sha1 selection_as_bytes s));
      [reflexivity|..]; cbn.
    + apply list_lookup_insert_eq. exact Hlt.
    + exact Ht.
    + rewrite (names_ext _ _ _ Hnames). exact Hn.
    + apply list_lookup_insert_eq. eapply lookup_lt_Some; exact Ho.
    + apply list_lookup_insert_eq. eapply lookup_lt_Some; exact Hs.
Qed.
End Hashing.

End HeapFacts.

(** ** The identity of a query *)

(** C3.  [compute_sha] leaves in the [sha] of a query the hash of the
    triple of its [require], the identity of its options and the identity
    of its selection; two queries that agree on these have the same [sha],
    whatever their tags and their [transient] flag are. *)
Theorem query_sha_ignores_tags sha1 options_as_bytes selection_as_bytes repr
    (h1 h2 : Heap) (q1 q2 : loc) (v1 v2 : QueryView) :
  view h1 q1 = Some v1 →
  view h2 q2 = Some v2 →
  v_require v1 = v_require v2 →
  v_options v1 = v_options v2 →
  v_selection v1 = v_selection v2 →
  ∃ h1' h2',
    compute_sha sha1 options_as_bytes selection_as_bytes repr q1 h1 = Some ((), h1')
    ∧ compute_sha sha1 options_as_bytes selection_as_bytes repr q2 h2 = Some ((), h2')
    ∧ sha_of h1' q1
      = Some (identity sha1 options_as_bytes selection_as_bytes repr
                (v_require v1) (v_options v1) (v_selection v1))
    ∧ sha_of h2' q2 = sha_of h1' q1.
Proof.
  intros Hv1 Hv2 Hr Ho Hs.
  destruct (compute_sha_identity sha1 options_as_bytes selection_as_bytes repr
              h1 q1 v1 Hv1) as (h1' & Hrun1 & Hsha1 & _).
  destruct (compute_sha_identity sha1 options_as_bytes selection_as_bytes repr
              h2 q2 v2 Hv2) as (h2' & Hrun2 & Hsha2 & _).
  exists h1', h2'. repeat split; [exact Hrun1|exact Hrun2|exact Hsha1|].
  rewrite Hsha1, Hsha2, Hr, Ho, Hs. reflexivity.
Qed.


Lemma query_sha_ignores_tags_witness :
  view sample_heap 2 = Some twin_plain
  ∧ view sample_heap 3 = Some twin_tagged
  ∧ ∃ h1' h2',
    compute_sha toy_sha1 toy_options_bytes toy_selection_bytes toy_repr 2 sample_heap
    = Some ((), h1')
    ∧ compute_sha toy_sha1 toy_options_bytes toy_selection_bytes toy_repr 3 sample_heap
      = Some ((), h2')
    ∧ sha_of h1' 2
      = Some (identity toy_sha1 toy_options_bytes toy_selection_bytes toy_repr
                (v_require twin_plain) (v_options twin_plain)
                (v_selection twin_plain))
    ∧ sha_of h2' 3 = sha_of h1' 2.
Proof.
  split; [vm_compute; reflexivity|]. split; [vm_compute; reflexivity|].
  apply (query_sha_ignores_tags toy_sha1 toy_options_bytes toy_selection_bytes
           toy_repr sample_heap sample_heap 2 3 twin_plain twin_tagged).
  - vm_compute. reflexivity.
  - vm_compute. reflexivity.
  - reflexivity.
  - reflexivity.
  - reflexivity.
Defined.

(** ** Composition of queries *)

Section Merge.
Local Close Scope string_scope.

Variable sha1 : string → string.
Variable options_as_bytes : gmap string FlagValue → string.
Variable selection_as_bytes : gmap string (list string) → string.
Variable repr : string → string.
Variable tag_eq : Tag.t → Tag.t → bool.

Ltac simpl_heap :=
  cbn [tag_objs list_objs options_objs selection_objs query_objs].
Tactic Notation "simpl_heap" "in" hyp(H) :=
  cbn [tag_objs list_objs options_objs selection_objs query_objs] in H.
Tactic Notation "simpl_heap" "in" "*" :=
  cbn [tag_objs list_objs options_objs selection_objs query_objs] in *.

Lemma names_run (h : Heap) (tags : list loc) (names : list string) :
  mapM (λ l, Tag.name <$> tag_objs h !! l) tags = Some names →
  py_map (λ tag, t ← get_tag tag; mret (Tag.name t)) tags h = Some (names, h).
Proof.
  revert names. induction tags as [|l tags IH]; intros names H.
  - injection H as <-. reflexivity.
  - cbn [mapM] in H.
    destruct (tag_objs h !! l) as [x|] eqn:Hx; [|discriminate].
    cbn [fmap option_fmap option_map mbind option_bind] in H.
    destruct (mapM _ tags) as [rest|]; [|discriminate].
    cbn in H. injection H as <-.
    cbn [py_map].
    erewrite py_bind_run.
    2:{ erewrite py_bind_run by (apply get_tag_run; exact Hx). reflexivity. }
    erewrite py_bind_run by (apply IH; reflexivity).
    reflexivity.
Qed.

Lemma new_tags_run (names : list string) (h : Heap) :
  py_map (λ name, new_tag (Tag.mk name None)) names h
  = Some (seq (length (tag_objs h)) (length names),
          mkHeap (tag_objs h ++ ((λ name, Tag.mk name None) <$> names))
                 (list_objs h) (options_objs h) (selection_objs h)
                 (query_objs h)).
Proof.
  revert h. induction names as [|name names IH]; intros h.
  - cbn. rewrite app_nil_r, heap_eta. reflexivity.
  - cbn [py_map].
    erewrite py_bind_run by reflexivity.
    erewrite py_bind_run by apply IH.
    cbn. rewrite length_app, <- app_assoc. cbn.
    rewrite Nat.add_1_r. reflexivity.
Qed.

Lemma tags_roundtrip (names : list string) :
  match match names with
        | [] => None
        | [name] => Some (inl name)
        | _ => Some (inr names)
        end
  with
  | None => []
  | Some (inl name) => [name]
  | Some (inr names) => names
  end = names.
Proof. destruct names as [|a [|b names]]; reflexivity. Qed.

Lemma dict_roundtrip {V} (m : gmap string V) `{!Decision (m = ∅)} :
  default ∅ (if bool_decide (m = ∅) then None else Some m) = m.
Proof. case_bool_decide as Hm; [rewrite Hm|]; reflexivity. Qed.

(** [clone] allocates a copy of everything [view] shows and leaves the
    objects that exist untouched. *)
Lemma clone_run (h : Heap) (self : loc) (x : Query.t) (tags : list loc)
    (names : list string) (o : Options.t) (s : Selection.t) :
  query_objs h !! self = Some x →
  list_objs h !! Query.tags x = Some tags →
  mapM (λ l, Tag.name <$> tag_objs h !! l) tags = Some names →
  options_objs h !! Query.options x = Some o →
  selection_objs h !! Query.selection x = Some s →
  clone sha1 options_as_bytes selection_as_bytes repr self false h
  = Some (length (query_objs h),
          mkHeap (tag_objs h ++ ((λ name, Tag.mk name None) <$> names))
                 (list_objs h ++ [seq (length (tag_objs h)) (length names)])
                 (options_objs h ++ [Options.mk (Options.flags o) None])
                 (selection_objs h ++ [Selection.mk (Selection.facets s) None])
                 (query_objs h
                    ++ [Query.mk (length (list_objs h)) (Query.transient x)
                          (Query.require x) (length (options_objs h))
                          (length (selection_objs h)) None])).
Proof.
  intros Hq Ht Hn Ho Hs. unfold clone.
  erewrite py_bind_run.
  2:{ unfold asdict.
      erewrite py_bind_run by (apply get_query_run; exact Hq).
      erewrite py_bind_run by (apply get_list_run; exact Ht).
      erewrite py_bind_run by (apply names_run; exact Hn).
      erewrite py_bind_run by (apply get_options_run; exact Ho).
      erewrite py_bind_run by (apply get_selection_run; exact Hs).
      reflexivity. }
  erewrite py_bind_run.
  2:{ unfold Query_init. cbn [d_tags d_transient d_require d_options d_selection].
      rewrite tags_roundtrip.
      erewrite py_bind_run by apply new_tags_run.
      erewrite py_bind_run by reflexivity.
      erewrite py_bind_run by reflexivity.
      erewrite py_bind_run by reflexivity.
      cbv beta. unfold new_query. simpl_heap. rewrite !dict_roundtrip.
      reflexivity. }
  reflexivity.
Qed.

Lemma tests_run {B} (g : loc → Tag.t → B) (tags : list loc) (h : Heap) :
  Forall (λ l, is_Some (tag_objs h !! l)) tags →
  ∃ found, py_map (λ l, y ← get_tag l; mret (g l y)) tags h = Some (found, h).
Proof.
  induction 1 as [|l tags [y Hy] _ [found IH]].
  - exists []. reflexivity.
  - exists (g l y :: found). cbn [py_map].
    erewrite py_bind_run.
    2:{ erewrite py_bind_run by (apply get_tag_run; exact Hy). reflexivity. }
    erewrite py_bind_run by exact IH.
    reflexivity.
Qed.

Lemma contains_run (tags : list loc) (tag : loc) (h : Heap) :
  is_Some (tag_objs h !! tag) →
  Forall (λ l, is_Some (tag_objs h !! l)) tags →
  ∃ present, contains tag_eq tags tag h = Some (present, h).
Proof.
  intros [x Hx] Hall. unfold contains.
  destruct (tests_run (λ l y, bool_decide (l = tag) || tag_eq y x) tags h Hall)
    as [found Hfound].
  exists (existsb id found).
  erewrite py_bind_run by (apply get_tag_run; exact Hx).
  erewrite py_bind_run by exact Hfound.
  reflexivity.
Qed.

(** One turn of the first loop appends to the list of the result or
    leaves the heap as it is. *)
Lemma add_tag_run (self result tag : loc) (h : Heap) (qs qr : Query.t)
    (ts tr : list loc) :
  query_objs h !! self = Some qs →
  list_objs h !! Query.tags qs = Some ts →
  Forall (λ l, is_Some (tag_objs h !! l)) ts →
  is_Some (tag_objs h !! tag) →
  query_objs h !! result = Some qr →
  list_objs h !! Query.tags qr = Some tr →
  ∃ extra, (extra = [] ∨ extra = [tag])
    ∧ add_tag tag_eq self result tag h
      = Some ((), mkHeap (tag_objs h)
                         (<[Query.tags qr := tr ++ extra]> (list_objs h))
                         (options_objs h) (selection_objs h) (query_objs h)).
Proof.
  intros Hqs Hts Hall Htag Hqr Htr.
  destruct (contains_run ts tag h Htag Hall) as [present Hpresent].
  unfold add_tag.
  erewrite py_bind_run by (apply get_query_run; exact Hqs).
  erewrite py_bind_run by (apply get_list_run; exact Hts).
  erewrite py_bind_run by exact Hpresent.
  destruct present; cbn [negb].
  - exists []. split; [left; reflexivity|].
    rewrite app_nil_r, list_insert_id by exact Htr.
    rewrite heap_eta. reflexivity.
  - exists [tag]. split; [right; reflexivity|].
    erewrite py_bind_run by (apply get_query_run; exact Hqr).
    erewrite modify_list_run by exact Htr. reflexivity.
Qed.

Lemma Forall_sublist {A} (P : A → Prop) (k l : list A) :
  sublist k l → Forall P l → Forall P k.
Proof.
  induction 1 as [|x k l _ IH|x k l _ IH]; intros Hl.
  - constructor.
  - apply Forall_cons in Hl as [Hx Hl]. constructor; [exact Hx|exact (IH Hl)].
  - apply Forall_cons in Hl as [_ Hl]. exact (IH Hl).
Qed.

Lemma merge_tags_loop (self result : loc) (qs qr : Query.t) (ts : list loc)
    (T : list Tag.t) (other_tags : list loc) :
  Forall (λ l, is_Some (T !! l)) ts →
  Forall (λ l, is_Some (T !! l)) other_tags →
  Query.tags qr ≠ Query.tags qs →
  ∀ (h : Heap) (tr : list loc),
    tag_objs h = T →
    query_objs h !! self = Some qs →
    list_objs h !! Query.tags qs = Some ts →
    query_objs h !! result = Some qr →
    list_objs h !! Query.tags qr = Some tr →
    ∃ extra, sublist extra other_tags
      ∧ py_for other_tags (add_tag tag_eq self result) h
        = Some ((), mkHeap T (<[Query.tags qr := tr ++ extra]> (list_objs h))
                           (options_objs h) (selection_objs h) (query_objs h)).
Proof.
  intros Hall Hother Hne.
  induction Hother as [|tag other_tags Htag Hother IH];
    intros h tr HT Hqs Hts Hqr Htr.
  - exists []. split; [constructor|].
    rewrite app_nil_r, list_insert_id by exact Htr. rewrite <- HT.
    rewrite heap_eta. reflexivity.
  - destruct (add_tag_run self result tag h qs qr ts tr) as (first & Hfirst & Hrun);
      try assumption; try (rewrite HT; assumption).
    assert (Query.tags qr < length (list_objs h)) as Hlt
      by (eapply lookup_lt_Some; exact Htr).
    destruct (IH (mkHeap (tag_objs h)
                         (<[Query.tags qr := tr ++ first]> (list_objs h))
                         (options_objs h) (selection_objs h) (query_objs h))
                 (tr ++ first))
      as (rest & Hrest & Hloop); simpl_heap.
    + exact HT.
    + exact Hqs.
    + rewrite list_lookup_insert_ne by exact Hne. exact Hts.
    + exact Hqr.
    + apply list_lookup_insert_eq. exact Hlt.
    + exists (first ++ rest). split.
      * destruct Hfirst as [->| ->]; cbn [app].
        -- apply sublist_cons. exact Hrest.
        -- apply sublist_skip. exact Hrest.
      * cbn [py_for]. erewrite py_bind_run by exact Hrun.
        rewrite Hloop. simpl_heap.
        rewrite list_insert_insert_eq, app_assoc. reflexivity.
Qed.

(** The second loop writes the flags of [other] into the options of
    [self]. *)
Lemma set_options_run (self : loc) (qs : Query.t)
    (items : list (string * FlagValue)) (h : Heap) (o : Options.t) :
  query_objs h !! self = Some qs →
  options_objs h !! Query.options qs = Some o →
  py_for items (set_option self) h
  = Some ((), mkHeap (tag_objs h) (list_objs h)
                (<[Query.options qs :=
                     Options.mk (foldl (λ flags item, <[item.1 := item.2]> flags)
                                       (Options.flags o) items)
                                (Options.sha o)]> (options_objs h))
                (selection_objs h) (query_objs h)).
Proof.
  revert h o. induction items as [|item items IH]; intros h o Hqs Ho.
  - cbn [foldl py_for]. destruct o as [flags sha].
    cbn [Options.flags Options.sha].
    rewrite list_insert_id by exact Ho. rewrite heap_eta. reflexivity.
  - cbn [py_for foldl].
    erewrite py_bind_run.
    2:{ unfold set_option.
        erewrite py_bind_run by (apply get_query_run; exact Hqs).
        apply modify_options_run. exact Ho. }
    rewrite (IH _ (Options.setattr item.1 item.2 o)); simpl_heap.
    + rewrite list_insert_insert_eq. reflexivity.
    + exact Hqs.
    + apply list_lookup_insert_eq. eapply lookup_lt_Some; exact Ho.
Qed.

(** The third loop writes the facets of [other] into the selection of the
    result. *)
Lemma set_facets_run (result : loc) (qr : Query.t)
    (items : list (string * list string)) (h : Heap) (s : Selection.t) :
  query_objs h !! result = Some qr →
  selection_objs h !! Query.selection qr = Some s →
  py_for items (set_facet result) h
  = Some ((), mkHeap (tag_objs h) (list_objs h) (options_objs h)
                (<[Query.selection qr :=
                     Selection.mk (foldl (λ facets item, <[item.1 := item.2]> facets)
                                         (Selection.facets s) items)
                                  (Selection.sha s)]> (selection_objs h))
                (query_objs h)).
Proof.
  revert h s. induction items as [|item items IH]; intros h s Hqr Hs.
  - cbn [foldl py_for]. destruct s as [facets sha].
    cbn [Selection.facets Selection.sha].
    rewrite list_insert_id by exact Hs. rewrite heap_eta. reflexivity.
  - cbn [py_for foldl].
    erewrite py_bind_run.
    2:{ unfold set_facet.
        erewrite py_bind_run by (apply get_query_run; exact Hqr).
        apply modify_selection_run. exact Hs. }
    rewrite (IH _ (Selection.setitem item.1 item.2 s)); simpl_heap.
    + rewrite list_insert_insert_eq. reflexivity.
    + exact Hqr.
    + apply list_lookup_insert_eq. eapply lookup_lt_Some; exact Hs.
Qed.

(** Writing every item of a dict into another gives their union, the
    written dict first. *)
Lemma foldl_insert_union {V} (items : list (string * V)) (m : gmap string V) :
  NoDup items.*1 →
  foldl (λ acc item, <[item.1 := item.2]> acc) m items
  = list_to_map items ∪ m.
Proof.
  revert m. induction items as [|[k v] items IH]; intros m Hnd.
  - cbn. rewrite (left_id_L ∅ (∪)). reflexivity.
  - cbn [fmap list_fmap fst] in Hnd. apply NoDup_cons in Hnd as [Hk Hnd].
    cbn [foldl list_to_map fst snd foldr]. rewrite IH by exact Hnd.
    rewrite <- insert_union_l.
    rewrite <- insert_union_r; [reflexivity|].
    apply not_elem_of_list_to_map_1. exact Hk.
Qed.

Lemma write_items_union {V} (written m : gmap string V) :
  foldl (λ acc item, <[item.1 := item.2]> acc) m (map_to_list written)
  = written ∪ m.
Proof.
  rewrite foldl_insert_union by apply NoDup_fst_map_to_list.
  rewrite list_to_map_to_list. reflexivity.
Qed.

Lemma insert_last {A} (l : list A) (i : nat) (x y : A) :
  i = length l → <[i := x]> (l ++ [y]) = l ++ [x].
Proof.
  intros ->. rewrite insert_app_r_alt by lia. rewrite Nat.sub_diag. reflexivity.
Qed.

Lemma fresh_tags_readable (T : list Tag.t) (names : list string) :
  Forall (λ l, is_Some ((T ++ ((λ name, Tag.mk name None) <$> names)) !! l))
         (seq (length T) (length names)).
Proof.
  apply Forall_forall. intros l Hl. apply elem_of_seq in Hl.
  apply lookup_lt_is_Some. rewrite length_app, length_fmap. lia.
Qed.

Lemma lshift_heap (T : list Tag.t) (L : list (list loc)) (O : list Options.t)
    (S : list Selection.t) (Q : list Query.t) (self other : loc)
    (xs xo : Query.t) (ts to : list loc) (ns no : list string)
    (os oo : Options.t) (ss so : Selection.t) :
  Q !! self = Some xs → L !! Query.tags xs = Some ts →
  mapM (λ l, Tag.name <$> T !! l) ts = Some ns →
  O !! Query.options xs = Some os → S !! Query.selection xs = Some ss →
  Q !! other = Some xo → L !! Query.tags xo = Some to →
  mapM (λ l, Tag.name <$> T !! l) to = Some no →
  O !! Query.options xo = Some oo → S !! Query.selection xo = Some so →
  ∃ T' extra sha_o sha_s,
    __lshift__ sha1 options_as_bytes selection_as_bytes repr tag_eq
               self other (mkHeap T L O S Q)
    = Some (length Q,
            mkHeap T'
              (L ++ [seq (length T) (length ns) ++ extra])
              (<[Query.options xs :=
                   Options.mk (Options.flags oo ∪ Options.flags os) (Options.sha os)]> O
               ++ [Options.mk (Options.flags os) sha_o])
              (S ++ [Selection.mk (Selection.facets so ∪ Selection.facets ss) sha_s])
              (Q ++ [Query.mk (length L) (Query.transient xo) (Query.require xs)
                              (length O) (length S)
                              (Some (identity sha1 options_as_bytes
                                       selection_as_bytes repr
                                       (Query.require xs) (Options.flags os)
                                       (Selection.facets so ∪ Selection.facets ss)))]))
    ∧ (∀ l : loc,
         Tag.name <$> T' !! l
         = Tag.name <$> (T ++ ((λ name, Tag.mk name None) <$> ns)) !! l)
    ∧ sublist extra to.
Proof.
  intros Hqs Hts Hns Hos Hss Hqo Hto Hno Hoo Hso.
  unfold __lshift__.
  erewrite py_bind_run
    by (apply (clone_run _ self xs ts ns os ss); simpl_heap; eassumption).
  simpl_heap. cbv beta.
  set (T1 := T ++ _). set (q0 := Query.mk _ _ _ _ _ None).
  erewrite py_bind_run
    by (apply get_query_run; simpl_heap; apply lookup_app_l_Some; exact Hqo).
  erewrite py_bind_run
    by (apply get_list_run; simpl_heap; apply lookup_app_l_Some; exact Hto).
  cbv beta.
  assert (Query.tags xs < length L) as Hlts by (eapply lookup_lt_Some; exact Hts).
  assert (Query.options xs < length O) as Hlos by (eapply lookup_lt_Some; exact Hos).
  assert (Forall (λ l, is_Some (T1 !! l)) ts) as Hrts.
  { eapply Forall_impl; [exact (names_readable _ _ _ Hns)|].
    intros l Hl. apply readable_app. exact Hl. }
  assert (Forall (λ l, is_Some (T1 !! l)) to) as Hrto.
  { eapply Forall_impl; [exact (names_readable _ _ _ Hno)|].
    intros l Hl. apply readable_app. exact Hl. }
  destruct (merge_tags_loop self (length Q) xs q0 ts T1 to Hrts Hrto
              ltac:(cbn; lia)
              (mkHeap T1 (L ++ [seq (length T) (length ns)])
                      (O ++ [Options.mk (Options.flags os) None])
                      (S ++ [Selection.mk (Selection.facets ss) None])
                      (Q ++ [q0]))
              (seq (length T) (length ns)))
    as (extra & Hsub & Htags); simpl_heap.
  { reflexivity. }
  { apply lookup_app_l_Some. exact Hqs. }
  { apply lookup_app_l_Some. exact Hts. }
  { apply list_lookup_middle. reflexivity. }
  { apply list_lookup_middle. reflexivity. }
  simpl_heap in Htags.
  erewrite py_bind_run by exact Htags.
  erewrite py_bind_run
    by (apply get_options_run; simpl_heap; apply lookup_app_l_Some; exact Hoo).
  erewrite py_bind_run.
  2:{ apply (set_options_run self xs _ _ os); simpl_heap.
      - apply lookup_app_l_Some. exact Hqs.
      - apply lookup_app_l_Some. exact Hos. }
  simpl_heap. cbv beta.
  erewrite py_bind_run
    by (apply get_selection_run; simpl_heap; apply lookup_app_l_Some; exact Hso).
  erewrite py_bind_run.
  2:{ apply (set_facets_run (length Q) q0 _ _
               (Selection.mk (Selection.facets ss) None)); simpl_heap.
      - apply list_lookup_middle. reflexivity.
      - apply list_lookup_middle. reflexivity. }
  simpl_heap. cbv beta.
  cbn [Selection.facets Selection.sha Options.flags Options.sha].
  erewrite py_bind_run
    by (apply get_query_run; simpl_heap; apply lookup_app_l_Some; exact Hqo).
  erewrite py_bind_run
    by (apply modify_query_run; simpl_heap; apply list_lookup_middle; reflexivity).
  simpl_heap. cbv beta.
  rewrite !write_items_union.
  subst q0. cbn [Query.tags Query.selection Query.options Query.transient
                 Query.require Query.sha Query.set_transient].
  clear Htags.
  rewrite (insert_last L), (insert_last S), (insert_last Q) by reflexivity.
  rewrite (insert_app_l O) by exact Hlos.
  cbn [Query.tags Query.selection Query.options Query.transient
       Query.require Query.sha Query.set_transient].
  set (q1 := Query.mk (length L) (Query.transient xo) (Query.require xs)
                      (length O) (length S) None).
  set (O1 := <[Query.options xs := _]> O).
  edestruct (compute_sha_run sha1 options_as_bytes selection_as_bytes repr
               (length Q)
               (mkHeap T1 (L ++ [seq (length T) (length ns) ++ extra])
                  (O1 ++ [Options.mk (Options.flags os) None])
                  (S ++ [Selection.mk (Selection.facets so ∪ Selection.facets ss) None])
                  (Q ++ [q1]))
               q1 (seq (length T) (length ns) ++ extra)
               (Options.mk (Options.flags os) None)
               (Selection.mk (Selection.facets so ∪ Selection.facets ss) None))
    as (T' & Hsha & Hnames); simpl_heap.
  { apply list_lookup_middle. reflexivity. }
  { apply list_lookup_middle. reflexivity. }
  { apply Forall_app. split; [apply fresh_tags_readable|].
    exact (Forall_sublist _ _ _ Hsub Hrto). }
  { apply list_lookup_middle. subst O1. rewrite length_insert. reflexivity. }
  { apply list_lookup_middle. reflexivity. }
  simpl_heap in Hsha. simpl_heap in Hnames.
  erewrite py_bind_run by exact Hsha.
  exists T', extra. eexists _, _.
  split; [|split; [exact Hnames|exact Hsub]].
  subst q1. cbn [Query.options Query.selection Query.set_sha Query.tags
                 Query.transient Query.require Query.sha
                 Options_compute_sha Selection_compute_sha
                 Options.flags Options.sha Selection.facets Selection.sha].
  rewrite (insert_last O1), (insert_last S), (insert_last Q)
    by (reflexivity || (subst O1; rewrite length_insert; reflexivity)).
  reflexivity.
Qed.

Lemma names_agree (T T' : list Tag.t) (tags : list loc) :
  Forall (λ l, Tag.name <$> T' !! l = Tag.name <$> T !! l) tags →
  mapM (λ l, Tag.name <$> T' !! l) tags = mapM (λ l, Tag.name <$> T !! l) tags.
Proof.
  induction 1 as [|l tags Hl _ IH]; [reflexivity|].
  cbn [mapM]. rewrite Hl, IH. reflexivity.
Qed.

(** Names read through locations of the old heap are the same after the
    merge. *)
Lemma names_kept (T T' : list Tag.t) (fresh : list Tag.t) (tags : list loc)
    (names : list string) :
  (∀ l : loc, Tag.name <$> T' !! l = Tag.name <$> (T ++ fresh) !! l) →
  mapM (λ l, Tag.name <$> T !! l) tags = Some names →
  mapM (λ l, Tag.name <$> T' !! l) tags = Some names.
Proof.
  intros Hnames Hn. rewrite <- Hn. apply names_agree.
  eapply Forall_impl; [exact (names_readable _ _ _ Hn)|].
  intros l Hl. cbv beta in Hl. rewrite Hnames.
  rewrite lookup_app_l by (apply lookup_lt_is_Some; exact Hl). reflexivity.
Qed.

Lemma names_exist (T : list Tag.t) (tags : list loc) :
  Forall (λ l, is_Some (T !! l)) tags →
  ∃ names, mapM (λ l, Tag.name <$> T !! l) tags = Some names.
Proof.
  intros Hall.
  destruct (mapM_is_Some_2 (λ l, Tag.name <$> T !! l) tags) as [names Hn].
  - eapply Forall_impl; [exact Hall|]. intros l Hl. cbn.
    apply fmap_is_Some. exact Hl.
  - exists names. exact Hn.
Qed.

Lemma names_app (T : list Tag.t) (a b : list loc) (x y : list string) :
  mapM (λ l, Tag.name <$> T !! l) a = Some x →
  mapM (λ l, Tag.name <$> T !! l) b = Some y →
  mapM (λ l, Tag.name <$> T !! l) (a ++ b) = Some (x ++ y).
Proof.
  rewrite !mapM_Some. apply Forall2_app.
Qed.

Lemma names_sublist (T : list Tag.t) (k l : list loc) (names : list string) :
  sublist k l →
  mapM (λ l, Tag.name <$> T !! l) l = Some names →
  ∃ part, mapM (λ l, Tag.name <$> T !! l) k = Some part ∧ sublist part names.
Proof.
  intros Hsub. revert names.
  induction Hsub as [|x k l _ IH|x k l _ IH]; intros names Hn.
  - exists []. split; [reflexivity|apply sublist_nil_l].
  - apply mapM_Some in Hn. apply Forall2_cons_inv_l in Hn as (n & rest & Hx & Hrest & ->).
    apply mapM_Some in Hrest. destruct (IH rest Hrest) as (part & Hpart & Hs).
    exists (n :: part). split.
    + apply mapM_Some. constructor; [exact Hx|]. apply mapM_Some. exact Hpart.
    + apply sublist_skip. exact Hs.
  - apply mapM_Some in Hn. apply Forall2_cons_inv_l in Hn as (n & rest & Hx & Hrest & ->).
    apply mapM_Some in Hrest. destruct (IH rest Hrest) as (part & Hpart & Hs).
    exists part. split; [exact Hpart|]. apply sublist_cons. exact Hs.
Qed.

(** The tags that [clone] allocates carry the names they were made from. *)
Lemma fresh_names (names : list string) (T : list Tag.t) :
  mapM (λ l, Tag.name <$> (T ++ ((λ name, Tag.mk name None) <$> names)) !! l)
       (seq (length T) (length names))
  = Some names.
Proof.
  revert T. induction names as [|name names IH]; intros T; [reflexivity|].
  cbn [length seq fmap list_fmap mapM].
  rewrite list_lookup_middle by reflexivity.
  cbn [fmap option_fmap option_map mbind option_bind Tag.name].
  specialize (IH (T ++ [Tag.mk name None])).
  rewrite length_app, Nat.add_1_r, <- app_assoc in IH. cbn [app] in IH.
  rewrite IH. reflexivity.
Qed.

(** What [__lshift__] returns and what it leaves of its operands, as
    [view] shows them. *)
Lemma lshift_spec (h : Heap) (self other : loc) (vs vo : QueryView) :
  view h self = Some vs →
  view h other = Some vo →
  ∃ h' vr,
    __lshift__ sha1 options_as_bytes selection_as_bytes repr tag_eq self other h
    = Some (length (query_objs h), h')
    ∧ view h' (length (query_objs h)) = Some vr
    ∧ v_require vr = v_require vs
    ∧ v_transient vr = v_transient vo
    ∧ v_options vr = v_options vs
    ∧ v_selection vr = v_selection vo ∪ v_selection vs
    ∧ view h' self
      = Some (mkQueryView (v_tags vs) (v_transient vs) (v_require vs)
                          (v_options vo ∪ v_options vs) (v_selection vs))
    ∧ view h' other = Some vo
    ∧ sha_of h' (length (query_objs h))
      = Some (identity sha1 options_as_bytes selection_as_bytes repr
                (v_require vr) (v_options vr) (v_selection vr))
    ∧ ∃ added, v_tags vr = v_tags vs ++ added ∧ sublist added (v_tags vo).
Proof.
  intros Hvs Hvo.
  destruct (view_inv h self vs Hvs)
    as (xs & ts & ns & os & ss & Hqs & Hts & Hns & Hos & Hss & ->).
  destruct (view_inv h other vo Hvo)
    as (xo & to & no & oo & so & Hqo & Hto & Hno & Hoo & Hso & ->).
  destruct h as [T L O S Q]. simpl_heap in *.
  destruct (lshift_heap T L O S Q self other xs xo ts to ns no os oo ss so)
    as (T' & extra & sha_o & sha_s & Hrun & Hnames & Hsub);
    try assumption.
  set (fresh := (λ name, Tag.mk name None) <$> ns) in *.
  destruct (names_sublist T extra to no Hsub Hno) as (added & Hadded & Hsubnames).
  assert (mapM (λ l, Tag.name <$> T' !! l) (seq (length T) (length ns) ++ extra)
          = Some (ns ++ added)) as Hnr.
  { apply names_app.
    - rewrite (names_agree (T ++ fresh) T').
      + apply fresh_names.
      + apply Forall_forall. intros l _. apply Hnames.
    - exact (names_kept T T' fresh extra added Hnames Hadded). }
  set (O1 := <[Query.options xs := _]> O) in *.
  assert (length O1 = length O) as HlenO by (subst O1; apply length_insert).
  eexists _, _. split; [exact Hrun|].
  split.
  { apply (view_intro _ (length Q)
             (Query.mk (length L) (Query.transient xo) (Query.require xs)
                       (length O) (length S)
                       (Some (identity sha1 options_as_bytes selection_as_bytes
                                repr (Query.require xs) (Options.flags os)
                                (Selection.facets so ∪ Selection.facets ss))))
             (seq (length T) (length ns) ++ extra) (ns ++ added)
             (Options.mk (Options.flags os) sha_o)
             (Selection.mk (Selection.facets so ∪ Selection.facets ss) sha_s));
      simpl_heap.
    - apply list_lookup_middle. reflexivity.
    - apply list_lookup_middle. reflexivity.
    - exact Hnr.
    - apply list_lookup_middle. symmetry. exact HlenO.
    - apply list_lookup_middle. reflexivity. }
  cbn [v_require v_transient v_options v_selection v_tags
       Query.require Query.transient Options.flags Selection.facets].
  repeat (split; [reflexivity|]).
  split; [|split; [|split]].
  - rewrite (view_intro _ self xs ts ns
               (Options.mk (Options.flags oo ∪ Options.flags os) (Options.sha os)) ss);
      [reflexivity|..]; simpl_heap.
    + apply lookup_app_l_Some. exact Hqs.
    + apply lookup_app_l_Some. exact Hts.
    + exact (names_kept T T' fresh ts ns Hnames Hns).
    + apply lookup_app_l_Some. subst O1.
      apply list_lookup_insert_eq. eapply lookup_lt_Some; exact Hos.
    + apply lookup_app_l_Some. exact Hss.
  - destruct (decide (Query.options xs = Query.options xo)) as [Heq|Hne].
    + assert (oo = os) as -> by (rewrite Heq in Hos; congruence).
      rewrite (view_intro _ other xo to no
                 (Options.mk (Options.flags os ∪ Options.flags os) (Options.sha os)) so);
        [cbn [Options.flags]; rewrite (idemp (∪) (Options.flags os));
         reflexivity|..]; simpl_heap.
      * apply lookup_app_l_Some. exact Hqo.
      * apply lookup_app_l_Some. exact Hto.
      * exact (names_kept T T' fresh to no Hnames Hno).
      * apply lookup_app_l_Some. subst O1. rewrite <- Heq.
        apply list_lookup_insert_eq. eapply lookup_lt_Some; exact Hos.
      * apply lookup_app_l_Some. exact Hso.
    + rewrite (view_intro _ other xo to no oo so); [reflexivity|..]; simpl_heap.
      * apply lookup_app_l_Some. exact Hqo.
      * apply lookup_app_l_Some. exact Hto.
      * exact (names_kept T T' fresh to no Hnames Hno).
      * apply lookup_app_l_Some. subst O1.
        rewrite list_lookup_insert_ne by exact Hne. exact Hoo.
      * apply lookup_app_l_Some. exact Hso.
  - unfold sha_of. simpl_heap.
    rewrite list_lookup_middle by reflexivity. reflexivity.
  - exists added. split; [reflexivity|exact Hsubnames].
Qed.

End Merge.

(** C1 (the code departs from the claim).  The claim says that the options
    of [base << override] are those of [base] with every flag of [override]
    written over them.  On the sample heap, where [base] sets no flag and
    [override] sets [distrib], the result sets no flag: the second loop of
    [__lshift__] writes into [self.options], not into [result.options]. *)
Theorem lshift_override_flag_missing_from_result :
  v_options <$> view sample_heap 0 = Some ∅
  ∧ v_options <$> view sample_heap 1 = Some {["distrib" := Some true]}
  ∧ (λ views, v_options views.1.1)
      <$> lshift_views toy_sha1 toy_options_bytes toy_selection_bytes toy_repr
                       toy_tag_eq 0 1 sample_heap
    = Some ∅.
Proof. repeat split; vm_compute; reflexivity. Qed.

(** C4 (the code departs from the claim).  The claim says that both
    operands are after the call as they were before it.  On the sample heap
    the flags of [base] are empty before [base << override] and hold the
    flag [distrib] of [override] after it. *)
Theorem lshift_mutates_base_options :
  view sample_heap 0
  = Some (mkQueryView ["cmip"] false (Some "0123abc") ∅
                      {["project" := ["CMIP6"]]})
  ∧ (λ views, views.1.2)
      <$> lshift_views toy_sha1 toy_options_bytes toy_selection_bytes toy_repr
                       toy_tag_eq 0 1 sample_heap
    = Some (mkQueryView ["cmip"] false (Some "0123abc")
                        {["distrib" := Some true]}
                        {["project" := ["CMIP6"]]}).
Proof. split; vm_compute; reflexivity. Qed.

(** C5, as stated, fails: the result of [base << override] carries the
    [require] of [base]. *)
Lemma lshift_result_keeps_require_example :
  v_require <$> view sample_heap 0 = Some (Some "0123abc")
  ∧ (λ views, v_require views.1.1)
      <$> lshift_views toy_sha1 toy_options_bytes toy_selection_bytes toy_repr
                       toy_tag_eq 0 1 sample_heap
    = Some (Some "0123abc").
Proof. split; vm_compute; reflexivity. Qed.

(** C5, amended.  For every heap and every two queries of it,
    [base << override] returns a new query whose [require] is the [require]
    of [base], whatever the [require] of [override] is. *)
Theorem lshift_result_requires_base sha1 options_as_bytes selection_as_bytes
    repr tag_eq (h : Heap) (base override : loc) (vb vo : QueryView) :
  view h base = Some vb →
  view h override = Some vo →
  ∃ result h' vr,
    __lshift__ sha1 options_as_bytes selection_as_bytes repr tag_eq
               base override h = Some (result, h')
    ∧ view h' result = Some vr
    ∧ v_require vr = v_require vb.
Proof.
  intros Hb Ho.
  destruct (lshift_spec sha1 options_as_bytes selection_as_bytes repr tag_eq
              h base override vb vo Hb Ho)
    as (h' & vr & Hrun & Hvr & Hreq & _).
  exists (length (query_objs h)), h', vr. repeat split; assumption.
Qed.

Lemma lshift_result_requires_base_witness :
  ∃ result h' vr,
    __lshift__ toy_sha1 toy_options_bytes toy_selection_bytes toy_repr
               toy_tag_eq 0 1 sample_heap = Some (result, h')
    ∧ view h' result = Some vr
    ∧ v_require vr
      = v_require (mkQueryView ["cmip"] false (Some "0123abc") ∅
                               {["project" := ["CMIP6"]]}).
Proof.
  apply (lshift_result_requires_base toy_sha1 toy_options_bytes
           toy_selection_bytes toy_repr toy_tag_eq sample_heap 0 1
           (mkQueryView ["cmip"] false (Some "0123abc") ∅
                        {["project" := ["CMIP6"]]})
           (mkQueryView ["monthly"] true None {["distrib" := Some true]}
                        {["variable" := ["tas"]]})).
  - vm_compute. reflexivity.
  - vm_compute. reflexivity.
Defined.

(** ** What composition does, for every heap *)

Section MergeLaws.
Local Close Scope string_scope.

Variable sha1 : string → string.
Variable options_as_bytes : gmap string FlagValue → string.
Variable selection_as_bytes : gmap string (list string) → string.
Variable repr : string → string.
Variable tag_eq : Tag.t → Tag.t → bool.

Local Abbreviation lshift :=
  (__lshift__ sha1 options_as_bytes selection_as_bytes repr tag_eq).

(** The flags of [base << override] are the flags [base] had before the
    call: no flag of [override] reaches the result. *)
Theorem lshift_result_options_from_base (h : Heap) (base override : loc)
    (vb vo : QueryView) :
  view h base = Some vb →
  view h override = Some vo →
  ∃ result h' vr,
    lshift base override h = Some (result, h')
    ∧ view h' result = Some vr
    ∧ v_options vr = v_options vb.
Proof.
  intros Hb Ho.
  destruct (lshift_spec sha1 options_as_bytes selection_as_bytes repr tag_eq
              h base override vb vo Hb Ho)
    as (h' & vr & Hrun & Hvr & _ & _ & Hopt & _).
  exists (length (query_objs h)), h', vr. repeat split; assumption.
Qed.

(** After [base << override], [base] holds every flag of [override] with
    the value [override] gives it, next to its own other flags; its tags,
    [transient], [require] and selection are as before. *)
Theorem lshift_base_receives_override_flags (h : Heap) (base override : loc)
    (vb vo : QueryView) :
  view h base = Some vb →
  view h override = Some vo →
  ∃ result h',
    lshift base override h = Some (result, h')
    ∧ view h' base
      = Some (mkQueryView (v_tags vb) (v_transient vb) (v_require vb)
                          (v_options vo ∪ v_options vb) (v_selection vb))
    ∧ ∀ name value, v_options vo !! name = Some value →
        ∃ vb', view h' base = Some vb' ∧ v_options vb' !! name = Some value.
Proof.
  intros Hb Ho.
  destruct (lshift_spec sha1 options_as_bytes selection_as_bytes repr tag_eq
              h base override vb vo Hb Ho)
    as (h' & vr & Hrun & _ & _ & _ & _ & _ & Hbase & _).
  exists (length (query_objs h)), h'. split; [exact Hrun|]. split; [exact Hbase|].
  intros name value Hname. eexists. split; [exact Hbase|].
  cbn [v_options]. apply lookup_union_Some_l. exact Hname.
Qed.

(** [base << override] leaves [override] as it was, also when the two
    queries share their options or are one and the same query. *)
Theorem lshift_override_unchanged (h : Heap) (base override : loc)
    (vb vo : QueryView) :
  view h base = Some vb →
  view h override = Some vo →
  ∃ result h',
    lshift base override h = Some (result, h')
    ∧ view h' override = Some vo.
Proof.
  intros Hb Ho.
  destruct (lshift_spec sha1 options_as_bytes selection_as_bytes repr tag_eq
              h base override vb vo Hb Ho)
    as (h' & vr & Hrun & _ & _ & _ & _ & _ & _ & Hover & _).
  exists (length (query_objs h)), h'. split; assumption.
Qed.

(** The selection of [base << override] is right-biased: a facet of
    [override] has the values [override] gives it, any other facet has the
    values of [base]; and [transient] is that of [override]. *)
Theorem lshift_result_selection_right_biased (h : Heap) (base override : loc)
    (vb vo : QueryView) :
  view h base = Some vb →
  view h override = Some vo →
  ∃ result h' vr,
    lshift base override h = Some (result, h')
    ∧ view h' result = Some vr
    ∧ v_transient vr = v_transient vo
    ∧ ∀ facet,
        v_selection vr !! facet
        = match v_selection vo !! facet with
          | Some values => Some values
          | None => v_selection vb !! facet
          end.
Proof.
  intros Hb Ho.
  destruct (lshift_spec sha1 options_as_bytes selection_as_bytes repr tag_eq
              h base override vb vo Hb Ho)
    as (h' & vr & Hrun & Hvr & _ & Htr & _ & Hsel & _).
  exists (length (query_objs h)), h', vr.
  split; [exact Hrun|]. split; [exact Hvr|]. split; [exact Htr|].
  intros facet. rewrite Hsel, lookup_union.
  destruct (v_selection vo !! facet), (v_selection vb !! facet); reflexivity.
Qed.

(** The tags of [base << override] are the tags of [base], in their order,
    followed by tags of [override], in their order. *)
Theorem lshift_result_tags (h : Heap) (base override : loc)
    (vb vo : QueryView) :
  view h base = Some vb →
  view h override = Some vo →
  ∃ result h' vr added,
    lshift base override h = Some (result, h')
    ∧ view h' result = Some vr
    ∧ v_tags vr = v_tags vb ++ added
    ∧ sublist added (v_tags vo).
Proof.
  intros Hb Ho.
  destruct (lshift_spec sha1 options_as_bytes selection_as_bytes repr tag_eq
              h base override vb vo Hb Ho)
    as (h' & vr & Hrun & Hvr & _ & _ & _ & _ & _ & _ & _ & added & Htags & Hsub).
  exists (length (query_objs h)), h', vr, added. repeat split; assumption.
Qed.

(** [base << override] returns a query that did not exist before, and the
    [sha] it carries is the identity of its own contents. *)
Theorem lshift_result_new_with_own_sha (h : Heap) (base override : loc)
    (vb vo : QueryView) :
  view h base = Some vb →
  view h override = Some vo →
  ∃ result h' vr,
    lshift base override h = Some (result, h')
    ∧ view h result = None
    ∧ view h' result = Some vr
    ∧ sha_of h' result
      = Some (identity sha1 options_as_bytes selection_as_bytes repr
                (v_require vr) (v_options vr) (v_selection vr)).
Proof.
  intros Hb Ho.
  destruct (lshift_spec sha1 options_as_bytes selection_as_bytes repr tag_eq
              h base override vb vo Hb Ho)
    as (h' & vr & Hrun & Hvr & _ & _ & _ & _ & _ & _ & Hsha & _).
  exists (length (query_objs h)), h', vr.
  split; [exact Hrun|]. split; [|split; assumption].
  unfold view. rewrite (lookup_ge_None_2 (query_objs h)) by lia. reflexivity.
Qed.

End MergeLaws.

Lemma lshift_result_options_from_base_witness :
  ∃ result h' vr,
    __lshift__ toy_sha1 toy_options_bytes toy_selection_bytes toy_repr
               toy_tag_eq 0 1 sample_heap = Some (result, h')
    ∧ view h' result = Some vr
    ∧ v_options vr = v_options sample_base.
Proof.
  apply (lshift_result_options_from_base toy_sha1 toy_options_bytes
           toy_selection_bytes toy_repr toy_tag_eq sample_heap 0 1
           sample_base sample_override);
    vm_compute; reflexivity.
Defined.

Lemma lshift_base_receives_override_flags_witness :
  ∃ result h',
    __lshift__ toy_sha1 toy_options_bytes toy_selection_bytes toy_repr
               toy_tag_eq 0 1 sample_heap = Some (result, h')
    ∧ view h' 0
      = Some (mkQueryView (v_tags sample_base) (v_transient sample_base)
                          (v_require sample_base)
                          (v_options sample_override ∪ v_options sample_base)
                          (v_selection sample_base))
    ∧ ∀ name value, v_options sample_override !! name = Some value →
        ∃ vb', view h' 0 = Some vb' ∧ v_options vb' !! name = Some value.
Proof.
  apply (lshift_base_receives_override_flags toy_sha1 toy_options_bytes
           toy_selection_bytes toy_repr toy_tag_eq sample_heap 0 1
           sample_base sample_override);
    vm_compute; reflexivity.
Defined.

Lemma lshift_override_unchanged_witness :
  ∃ result h',
    __lshift__ toy_sha1 toy_options_bytes toy_selection_bytes toy_repr
               toy_tag_eq 0 1 sample_heap = Some (result, h')
    ∧ view h' 1 = Some sample_override.
Proof.
  apply (lshift_override_unchanged toy_sha1 toy_options_bytes
           toy_selection_bytes toy_repr toy_tag_eq sample_heap 0 1
           sample_base sample_override);
    vm_compute; reflexivity.
Defined.

Lemma lshift_result_selection_right_biased_witness :
  ∃ result h' vr,
    __lshift__ toy_sha1 toy_options_bytes toy_selection_bytes toy_repr
               toy_tag_eq 0 1 sample_heap = Some (result, h')
    ∧ view h' result = Some vr
    ∧ v_transient vr = v_transient sample_override
    ∧ ∀ facet,
        v_selection vr !! facet
        = match v_selection sample_override !! facet with
          | Some values => Some values
          | None => v_selection sample_base !! facet
          end.
Proof.
  apply (lshift_result_selection_right_biased toy_sha1 toy_options_bytes
           toy_selection_bytes toy_repr toy_tag_eq sample_heap 0 1
           sample_base sample_override);
    vm_compute; reflexivity.
Defined.

Lemma lshift_result_tags_witness :
  ∃ result h' vr added,
    __lshift__ toy_sha1 toy_options_bytes toy_selection_bytes toy_repr
               toy_tag_eq 0 1 sample_heap = Some (result, h')
    ∧ view h' result = Some vr
    ∧ v_tags vr = (v_tags sample_base ++ added)%list
    ∧ sublist added (v_tags sample_override).
Proof.
  apply (lshift_result_tags toy_sha1 toy_options_bytes
           toy_selection_bytes toy_repr toy_tag_eq sample_heap 0 1
           sample_base sample_override);
    vm_compute; reflexivity.
Defined.

Lemma lshift_result_new_with_own_sha_witness :
  ∃ result h' vr,
    __lshift__ toy_sha1 toy_options_bytes toy_selection_bytes toy_repr
               toy_tag_eq 0 1 sample_heap = Some (result, h')
    ∧ view sample_heap result = None
    ∧ view h' result = Some vr
    ∧ sha_of h' result
      = Some (identity toy_sha1 toy_options_bytes toy_selection_bytes toy_repr
                (v_require vr) (v_options vr) (v_selection vr)).
Proof.
  apply (lshift_result_new_with_own_sha toy_sha1 toy_options_bytes
           toy_selection_bytes toy_repr toy_tag_eq sample_heap 0 1
           sample_base sample_override);
    vm_compute; reflexivity.
Defined.

(** ** Cloning and hashing, for every heap *)

Section CloneLaws.
Local Close Scope string_scope.

Variable sha1 : string → string.
Variable options_as_bytes : gmap string FlagValue → string.
Variable selection_as_bytes : gmap string (list string) → string.
Variable repr : string → string.

Local Abbreviation hash := (compute_sha sha1 options_as_bytes selection_as_bytes repr).
Local Abbreviation copy := (clone sha1 options_as_bytes selection_as_bytes repr).
Local Abbreviation id_of := (identity sha1 options_as_bytes selection_as_bytes repr).

(** Recomputing the identity of a query gives the same [sha] again and
    changes nothing of what [view] shows. *)
Theorem compute_sha_stable (h : Heap) (q : loc) (v : QueryView) :
  view h q = Some v →
  ∃ h' h'',
    hash q h = Some ((), h')
    ∧ hash q h' = Some ((), h'')
    ∧ sha_of h' q = Some (id_of (v_require v) (v_options v) (v_selection v))
    ∧ sha_of h'' q = sha_of h' q
    ∧ view h'' q = Some v.
Proof.
  intros Hv.
  destruct (compute_sha_identity sha1 options_as_bytes selection_as_bytes repr
              h q v Hv) as (h' & Hrun & Hsha & Hv').
  destruct (compute_sha_identity sha1 options_as_bytes selection_as_bytes repr
              h' q v Hv') as (h'' & Hrun' & Hsha' & Hv'').
  exists h', h''. repeat split; try assumption.
  rewrite Hsha, Hsha'. reflexivity.
Qed.

Lemma clone_with_sha (self : loc) (h : Heap) :
  copy self true h
  = match copy self false h with
    | Some (r, h1) =>
        match hash r h1 with
        | Some (_, h2) => Some (r, h2)
        | None => None
        end
    | None => None
    end.
Proof.
  unfold clone, mbind, py_bind, mret, py_ret.
  destruct (asdict self h) as [[d h0]|]; [|reflexivity].
  destruct (Query_init d h0) as [[r h1]|]; [|reflexivity].
  destruct (hash r h1) as [[[] h2]|]; reflexivity.
Qed.

(** [clone] returns a query that did not exist, that shows what the
    original shows and owns its own tag list, options and selection; the
    original is as before.  The copy carries its identity when
    [compute_sha] is asked for, and no [sha] otherwise. *)
Theorem clone_copies (h : Heap) (self : loc) (v : QueryView) (with_sha : bool) :
  view h self = Some v →
  ∃ r h' qr qs,
    copy self with_sha h = Some (r, h')
    ∧ view h r = None
    ∧ view h' r = Some v
    ∧ view h' self = Some v
    ∧ sha_of h' r
      = (if with_sha
         then Some (id_of (v_require v) (v_options v) (v_selection v))
         else None)
    ∧ query_objs h' !! r = Some qr
    ∧ query_objs h' !! self = Some qs
    ∧ Query.tags qr ≠ Query.tags qs
    ∧ Query.options qr ≠ Query.options qs
    ∧ Query.selection qr ≠ Query.selection qs.
Proof.
  intros Hv.
  destruct (view_inv h self v Hv)
    as (x & ts & ns & o & s & Hq & Ht & Hn & Ho & Hs & ->).
  destruct h as [T L O S Q].
  cbn [tag_objs list_objs options_objs selection_objs query_objs] in *.
  pose proof (clone_run sha1 options_as_bytes selection_as_bytes repr
                (mkHeap T L O S Q) self x ts ns o s Hq Ht Hn Ho Hs) as Hrun.
  cbn [tag_objs list_objs options_objs selection_objs query_objs] in Hrun.
  set (fresh := (λ name, Tag.mk name None) <$> ns) in *.
  set (q0 := Query.mk (length L) (Query.transient x) (Query.require x)
                      (length O) (length S) None) in *.
  assert (Query.tags x < length L) as HltL by (eapply lookup_lt_Some; exact Ht).
  assert (Query.options x < length O) as HltO by (eapply lookup_lt_Some; exact Ho).
  assert (Query.selection x < length S) as HltS by (eapply lookup_lt_Some; exact Hs).
  assert (view (mkHeap T L O S Q) (length Q) = None) as Hnew.
  { unfold view. cbn [query_objs].
    rewrite (lookup_ge_None_2 Q) by lia. reflexivity. }
  destruct with_sha.
  - rewrite clone_with_sha, Hrun.
    destruct (compute_sha_run sha1 options_as_bytes selection_as_bytes repr
                (length Q)
                (mkHeap (T ++ fresh) (L ++ [seq (length T) (length ns)])
                        (O ++ [Options.mk (Options.flags o) None])
                        (S ++ [Selection.mk (Selection.facets s) None])
                        (Q ++ [q0]))
                q0 (seq (length T) (length ns))
                (Options.mk (Options.flags o) None)
                (Selection.mk (Selection.facets s) None))
      as (T' & Hhash & Hnames);
      cbn [tag_objs list_objs options_objs selection_objs query_objs
           Query.tags Query.options Query.selection q0].
    { apply list_lookup_middle. reflexivity. }
    { apply list_lookup_middle. reflexivity. }
    { apply fresh_tags_readable. }
    { apply list_lookup_middle. reflexivity. }
    { apply list_lookup_middle. reflexivity. }
    cbn [tag_objs list_objs options_objs selection_objs query_objs
         Query.tags Query.options Query.selection Query.require q0
         Options.flags Selection.facets] in Hhash, Hnames.
    rewrite (insert_last O), (insert_last S), (insert_last Q) in Hhash by reflexivity.
    rewrite Hhash.
    exists (length Q). eexists _.
    exists (Query.set_sha
              (id_of (Query.require x) (Options.flags o) (Selection.facets s)) q0), x.
    split; [reflexivity|]. split; [exact Hnew|].
    repeat split.
    + rewrite (view_intro _ (length Q)
                 (Query.set_sha
                    (id_of (Query.require x) (Options.flags o) (Selection.facets s)) q0)
                 (seq (length T) (length ns)) ns
                 (Options_compute_sha sha1 options_as_bytes
                    (Options.mk (Options.flags o) None))
                 (Selection_compute_sha sha1 selection_as_bytes
                    (Selection.mk (Selection.facets s) None)));
        [reflexivity|..];
        cbn [tag_objs list_objs options_objs selection_objs query_objs
             Query.set_sha Query.tags Query.options Query.selection q0].
      * apply list_lookup_middle. reflexivity.
      * apply list_lookup_middle. reflexivity.
      * rewrite (names_agree (T ++ fresh) T').
        -- apply fresh_names.
        -- apply Forall_forall. intros l _. apply Hnames.
      * apply list_lookup_middle. reflexivity.
      * apply list_lookup_middle. reflexivity.
    + rewrite (view_intro _ self x ts ns o s); [reflexivity|..];
        cbn [tag_objs list_objs options_objs selection_objs query_objs].
      * apply lookup_app_l_Some. exact Hq.
      * apply lookup_app_l_Some. exact Ht.
      * exact (names_kept T T' fresh ts ns Hnames Hn).
      * apply lookup_app_l_Some. exact Ho.
      * apply lookup_app_l_Some. exact Hs.
    + unfold sha_of. cbn [query_objs].
      rewrite list_lookup_middle by reflexivity. reflexivity.
    + cbn [query_objs]. apply list_lookup_middle. reflexivity.
    + cbn [query_objs]. apply lookup_app_l_Some. exact Hq.
    + cbn [Query.set_sha Query.tags q0]. lia.
    + cbn [Query.set_sha Query.options q0]. lia.
    + cbn [Query.set_sha Query.selection q0]. lia.
  - rewrite Hrun.
    exists (length Q). eexists _, q0, x. split; [reflexivity|].
    split; [exact Hnew|].
    repeat split.
    + rewrite (view_intro _ (length Q) q0 (seq (length T) (length ns)) ns
                 (Options.mk (Options.flags o) None)
                 (Selection.mk (Selection.facets s) None));
        [reflexivity|..];
        cbn [tag_objs list_objs options_objs selection_objs query_objs
             Query.tags Query.options Query.selection q0].
      * apply list_lookup_middle. reflexivity.
      * apply list_lookup_middle. reflexivity.
      * apply fresh_names.
      * apply list_lookup_middle. reflexivity.
      * apply list_lookup_middle. reflexivity.
    + rewrite (view_intro _ self x ts ns o s); [reflexivity|..];
        cbn [tag_objs list_objs options_objs selection_objs query_objs].
      * apply lookup_app_l_Some. exact Hq.
      * apply lookup_app_l_Some. exact Ht.
      * apply (names_kept T (T ++ fresh) fresh ts ns); [reflexivity|exact Hn].
      * apply lookup_app_l_Some. exact Ho.
      * apply lookup_app_l_Some. exact Hs.
    + unfold sha_of. cbn [query_objs].
      rewrite list_lookup_middle by reflexivity. reflexivity.
    + cbn [query_objs]. apply list_lookup_middle. reflexivity.
    + cbn [query_objs]. apply lookup_app_l_Some. exact Hq.
    + cbn [Query.tags q0]. lia.
    + cbn [Query.options q0]. lia.
    + cbn [Query.selection q0]. lia.
Qed.

End CloneLaws.

Lemma compute_sha_stable_witness :
  ∃ h' h'',
    compute_sha toy_sha1 toy_options_bytes toy_selection_bytes toy_repr 1
                sample_heap = Some ((), h')
    ∧ compute_sha toy_sha1 toy_options_bytes toy_selection_bytes toy_repr 1 h'
      = Some ((), h'')
    ∧ sha_of h' 1
      = Some (identity toy_sha1 toy_options_bytes toy_selection_bytes toy_repr
                (v_require sample_override) (v_options sample_override)
                (v_selection sample_override))
    ∧ sha_of h'' 1 = sha_of h' 1
    ∧ view h'' 1 = Some sample_override.
Proof.
  apply (compute_sha_stable toy_sha1 toy_options_bytes toy_selection_bytes
           toy_repr sample_heap 1 sample_override).
  vm_compute. reflexivity.
Defined.

Lemma clone_copies_witness :
  ∃ r h' qr qs,
    clone toy_sha1 toy_options_bytes toy_selection_bytes toy_repr 0 true
          sample_heap = Some (r, h')
    ∧ view sample_heap r = None
    ∧ view h' r = Some sample_base
    ∧ view h' 0 = Some sample_base
    ∧ sha_of h' r
      = (if true
         then Some (identity toy_sha1 toy_options_bytes toy_selection_bytes
                      toy_repr (v_require sample_base) (v_options sample_base)
                      (v_selection sample_base))
         else None)
    ∧ query_objs h' !! r = Some qr
    ∧ query_objs h' !! 0 = Some qs
    ∧ Query.tags qr ≠ Query.tags qs
    ∧ Query.options qr ≠ Query.options qs
    ∧ Query.selection qr ≠ Query.selection qs.
Proof.
  apply (clone_copies toy_sha1 toy_options_bytes toy_selection_bytes toy_repr
           sample_heap 0 sample_base true).
  vm_compute. reflexivity.
Defined.

(** ** The status enumeration and the retry command, for every input *)

(** [FileStatus.retryable()] lists every status but [done] and [queued],
    each once. *)
Theorem retryable_all_but_done_queued :
  NoDup FileStatus_.retryable
  ∧ ∀ s, s ∈ FileStatus_.retryable ↔ s ≠ done ∧ s ≠ queued.
Proof.
  split.
  - unfold FileStatus_.retryable.
    repeat (apply NoDup_cons; split;
            [rewrite ?elem_of_cons, elem_of_nil; intuition discriminate|]).
    apply NoDup_nil_2.
  - intros s. unfold FileStatus_.retryable.
    rewrite !elem_of_cons, elem_of_nil.
    destruct s; intuition congruence.
Qed.

(** Whatever the class [FileStatus] it imports, the selection, the
    all-flag and the database are, [retry] raises and leaves the rows,
    the record of database calls and the console as they were; with a
    selection that is not empty and without the all-flag, it raises the
    [TypeError] of [Esgpull(verbosity=...)]. *)
Theorem retry_never_requeues status_attr status_retryable onraise
    (status : list FileStatus) (_all : bool) (w : World) :
  (∃ e, retry status_attr status_retryable onraise status _all w = (raise e, w))
  ∧ ∀ first rest,
      retry status_attr status_retryable onraise (first :: rest) false w
      = (raise TypeError, w).
Proof.
  split; [|reflexivity].
  unfold retry. destruct _all.
  - cbn. destruct status_retryable as [e|[|first rest]].
    + eexists; reflexivity.
    + cbn. destruct (status_attr "Error") as [e|?]; [eexists; reflexivity|].
      destruct (status_attr "Cancelled") as [e|?]; eexists; reflexivity.
    + eexists; reflexivity.
  - destruct status as [|first rest].
    + cbn. destruct (status_attr "Error") as [e|?]; [eexists; reflexivity|].
      destruct (status_attr "Cancelled") as [e|?]; eexists; reflexivity.
    + eexists; reflexivity.
Qed.

(** ** Local paths and resolution, for every record *)

(** The [version] field of the record itself never reaches the path: only
    the resolved version passed as argument is substituted. *)
Theorem get_local_path_ignores_own_version find_str (raw : gmap string PyVal)
    (own : PyVal) (version : string) :
  get_local_path find_str (<["version" := own]> raw) version
  = get_local_path find_str (delete "version" raw) version.
Proof.
  unfold get_local_path, getitem.
  rewrite fmap_insert, fmap_delete.
  rewrite lookup_insert_ne, lookup_delete_ne by discriminate.
  rewrite delete_insert_eq, delete_delete_eq. reflexivity.
Qed.

Section MissingField.
Import PyStr.

Lemma format_missing_field kwargs (before after : list Segment) (name : string)
    (pieces : list string) :
  Forall segment_ok before →
  segment_ok (Hole name) →
  Forall2 (substituted kwargs) before pieces →
  kwargs !! name = None →
  format_go kwargs Literal (assemble converted (before ++ Hole name :: after))
  = raise (KeyError name).
Proof.
  intros Hok [Hfree Hdigits] Hsub Hmissing.
  induction Hsub as [|seg piece before pieces Hseg _ IH].
  - cbn [app assemble foldr converted].
    change ("{" +:+ name +:+ "}") with (String "{" (name +:+ "}")).
    rewrite append_cons, append_assoc.
    change ("}" +:+ foldr (λ seg rest, converted seg +:+ rest) "" after)
      with (String "}" (foldr (λ seg rest, converted seg +:+ rest) "" after)).
    rewrite format_go_hole by assumption.
    unfold field_value. rewrite Hdigits, Hmissing. reflexivity.
  - apply Forall_cons in Hok as [Hsegok Hok]. specialize (IH Hok).
    cbn [app assemble foldr]. fold (assemble converted (before ++ Hole name :: after)).
    destruct seg as [text|field]; cbn [converted segment_ok substituted] in *.
    + rewrite format_go_text, IH; [reflexivity|].
      cbn [free_of].
      rewrite (free_of_has_char _ _ "{" Hsegok) by reflexivity.
      rewrite (free_of_has_char _ _ "}" Hsegok) by reflexivity.
      reflexivity.
    + destruct Hsegok as [Hffree Hfdigits]. destruct Hseg as (v & Hv & Hstr).
      change ("{" +:+ field +:+ "}") with (String "{" (field +:+ "}")).
      rewrite append_cons, append_assoc.
      change ("}" +:+ assemble converted (before ++ Hole name :: after))
        with (String "}" (assemble converted (before ++ Hole name :: after))).
      rewrite format_go_hole, IH by assumption.
      unfold field_value. rewrite Hfdigits, Hv, Hstr. reflexivity.
Qed.

End MissingField.

(** A placeholder whose name is neither a field of the record nor
    [version] makes [get_local_path] raise [KeyError] of that name, when
    the placeholders before it can be substituted. *)
Theorem get_local_path_missing_field find_str (raw kwargs : gmap string PyVal)
    (version : string) (found : PyVal) (before after : list Segment)
    (name : string) (pieces : list string) :
  Forall segment_ok (before ++ Hole name :: after) →
  raw !! "directory_format_template_" = Some found →
  find_str (flatten found)
  = ok ("%(root)s/" +:+ python_template (before ++ Hole name :: after)) →
  cordex (delete "version" (flatten <$> raw)) = ok kwargs →
  Forall2 (substituted (<["version" := VStr version]> kwargs)) before pieces →
  name ≠ "version" →
  kwargs !! name = None →
  get_local_path find_str raw version = raise (KeyError name).
Proof.
  intros Hok Hraw Hfind Hcordex Hsub Hname Hmissing.
  unfold get_local_path, getitem.
  rewrite getitem_fmap_flatten, Hraw.
  cbn [fmap option_fmap option_map mbind exc_bind ebind ok].
  rewrite Hfind. cbn [mbind exc_bind ebind ok].
  rewrite Hcordex. cbn [mbind exc_bind ebind ok].
  rewrite removeprefix_app. unfold PyStr.replace, python_template, PyStr.format.
  rewrite <- (append_empty_r (assemble render_segment _)).
  rewrite replace_open by exact Hok.
  rewrite replace_close by exact Hok.
  cbn [PyStr.replace_go]. rewrite append_empty_r.
  apply Forall_app in Hok as [Hbefore Hrest].
  apply Forall_cons in Hrest as [Hhole _].
  apply (format_missing_field _ before after name pieces); try assumption.
  rewrite lookup_insert_ne by congruence. exact Hmissing.
Qed.

(** For a CORDEX record whose [institute] and [rcm_name] are strings, the
    field [rcm_model], made of the two joined by a dash, is substituted
    like any field of the record. *)
Theorem get_local_path_cordex_model find_str (raw : gmap string PyVal)
    (version institute rcm_name : string) (found : PyVal)
    (segs : list Segment) (pieces : list string) :
  Forall segment_ok segs →
  raw !! "directory_format_template_" = Some found →
  find_str (flatten found) = ok ("%(root)s/" +:+ python_template segs) →
  flatten <$> raw !! "institute" = Some (VStr institute) →
  flatten <$> raw !! "rcm_name" = Some (VStr rcm_name) →
  Forall2 (substituted
             (<["version" := VStr version]>
                (<["rcm_model" := VStr (institute +:+ "-" +:+ rcm_name)]>
                   (delete "version" (flatten <$> raw)))))
          segs pieces →
  get_local_path find_str raw version = ok (concat_str pieces).
Proof.
  intros Hok Hraw Hfind Hi Hr Hsub.
  assert (cordex (delete "version" (flatten <$> raw))
          = ok (<["rcm_model" := VStr (institute +:+ "-" +:+ rcm_name)]>
                  (delete "version" (flatten <$> raw)))) as Hcordex.
  { apply cordex_synthesizes.
    - rewrite lookup_delete_ne by discriminate. rewrite lookup_fmap. exact Hi.
    - rewrite lookup_delete_ne by discriminate. rewrite lookup_fmap. exact Hr. }
  unfold get_local_path, getitem.
  rewrite getitem_fmap_flatten, Hraw.
  cbn [fmap option_fmap option_map mbind exc_bind ebind ok].
  rewrite Hfind. cbn [mbind exc_bind ebind ok].
  rewrite Hcordex. cbn [mbind exc_bind ebind ok].
  rewrite removeprefix_app. unfold PyStr.replace, python_template, PyStr.format.
  rewrite <- (append_empty_r (assemble render_segment segs)).
  rewrite replace_open by exact Hok.
  rewrite replace_close by exact Hok.
  cbn [PyStr.replace_go]. rewrite append_empty_r.
  apply format_segments; assumption.
Qed.

(** For a CORDEX record whose [institute] is present and is not a string
    once flattened (a list of several values, a number), the synthesis of
    [rcm_model] raises [TypeError]. *)
Theorem get_local_path_cordex_type_error find_str (raw : gmap string PyVal)
    (version template : string) (found institute : PyVal) :
  raw !! "directory_format_template_" = Some found →
  find_str (flatten found) = ok template →
  is_Some (raw !! "rcm_name") →
  flatten <$> raw !! "institute" = Some institute →
  (∀ s, institute ≠ VStr s) →
  get_local_path find_str raw version = raise TypeError.
Proof.
  intros Hraw Hfind [rcm Hrcm] Hi Hnot.
  unfold get_local_path, getitem.
  rewrite getitem_fmap_flatten, Hraw.
  cbn [fmap option_fmap option_map mbind exc_bind ebind ok].
  rewrite Hfind. cbn [mbind exc_bind ebind ok].
  unfold cordex, getitem.
  rewrite !lookup_delete_ne by discriminate.
  rewrite !lookup_fmap, Hrcm, Hi.
  rewrite decide_True by (eexists; reflexivity).
  cbn [fmap option_fmap option_map mbind exc_bind ebind ok].
  destruct institute as [s| | | | |]; try reflexivity.
  exfalso. exact (Hnot s eq_refl).
Qed.

Lemma get_local_path_missing_field_witness :
  get_local_path first_str missing_field_raw "v1" = raise (KeyError "c").
Proof.
  apply (get_local_path_missing_field first_str missing_field_raw
           (delete "version" (flatten <$> missing_field_raw)) "v1"
           (VStr "%(root)s/%(a)s/%(c)s/%(version)s")
           [Hole "a"; Lit "/"] [Lit "/"; Hole "version"] "c" ["x"; "/"]).
  - repeat constructor.
  - vm_compute. reflexivity.
  - reflexivity.
  - apply cordex_absent. vm_compute. reflexivity.
  - repeat constructor.
    exists (VStr "x"). split; [vm_compute|]; reflexivity.
  - discriminate.
  - vm_compute. reflexivity.
Defined.

Lemma get_local_path_cordex_model_witness :
  get_local_path first_str cordex_full_raw "v20180803"
  = ok "CORDEX/SMHI-RCA4/v20180803".
Proof.
  apply (get_local_path_cordex_model first_str cordex_full_raw "v20180803"
           "SMHI" "RCA4"
           (VList [VStr "%(root)s/%(project)s/%(rcm_model)s/%(version)s"])
           [Hole "project"; Lit "/"; Hole "rcm_model"; Lit "/"; Hole "version"]
           ["CORDEX"; "/"; "SMHI-RCA4"; "/"; "v20180803"]).
  - repeat constructor.
  - vm_compute. reflexivity.
  - reflexivity.
  - vm_compute. reflexivity.
  - vm_compute. reflexivity.
  - repeat constructor.
    + exists (VStr "CORDEX"). split; [vm_compute|]; reflexivity.
    + exists (VStr "SMHI-RCA4"). split; [vm_compute|]; reflexivity.
    + exists (VStr "v20180803"). split; [vm_compute|]; reflexivity.
Defined.

Lemma get_local_path_cordex_type_error_witness :
  get_local_path first_str cordex_multi_raw "v20180803" = raise TypeError.
Proof.
  apply (get_local_path_cordex_type_error first_str cordex_multi_raw
           "v20180803" "%(root)s/%(project)s/%(rcm_model)s/%(version)s"
           (VList [VStr "%(root)s/%(project)s/%(rcm_model)s/%(version)s"])
           (VList [VStr "SMHI"; VStr "KNMI"])).
  - vm_compute. reflexivity.
  - reflexivity.
  - vm_compute. eexists; reflexivity.
  - vm_compute. reflexivity.
  - intros s. discriminate.
Defined.

Section ResolutionFacts.
Import PyStr.

Lemma partition0_no_sep (c : ascii) (s : string) :
  has_char c (partition0 s (String c EmptyString)) = false.
Proof.
  induction s as [|d s IH]; [reflexivity|].
  rewrite partition0_cons, startswith_char.
  destruct (decide (c = d)) as [->|Hne].
  - rewrite bool_decide_eq_true_2 by reflexivity. reflexivity.
  - rewrite bool_decide_eq_false_2 by exact Hne.
    cbn [has_char]. rewrite IH.
    rewrite bool_decide_eq_false_2 by congruence. reflexivity.
Qed.

Lemma rsplit_last_split (c : ascii) (s a b : string) :
  rsplit_last s (String c EmptyString) = Some (a, b) →
  s = a +:+ String c b ∧ has_char c b = false.
Proof.
  revert a b. induction s as [|d s IH]; intros a b H; [discriminate|].
  rewrite rsplit_last_cons in H.
  destruct (rsplit_last s (String c EmptyString)) as [[a' b']|] eqn:Hrec.
  - injection H as <- <-. destruct (IH a' b' eq_refl) as [-> Hb].
    split; [reflexivity|exact Hb].
  - rewrite strip_prefix_char in H.
    destruct (decide (c = d)) as [->|]; [|discriminate].
    injection H as <- <-. split; [reflexivity|].
    clear IH. induction s as [|e s IHs]; [reflexivity|].
    rewrite rsplit_last_cons in Hrec.
    destruct (rsplit_last s (String d EmptyString)) as [[? ?]|]; [discriminate|].
    rewrite strip_prefix_char in Hrec.
    destruct (decide (d = e)) as [|Hne]; [discriminate|].
    cbn [has_char]. rewrite IHs by reflexivity.
    rewrite bool_decide_eq_false_2 by congruence. reflexivity.
Qed.

End ResolutionFacts.

(** Whenever [from_dict] returns a file: its dataset identity and its URL
    hold no bar, its version holds no dot, the dataset identity is the
    master part, a dot and the version, [master_id] is the master part, a
    dot and the filename, [file_id] is the dataset identity, a dot and the
    filename, the status is [new], the raw record is kept, and the local
    path is the one [get_local_path] derives for that version. *)
Theorem from_dict_invariants find_str find_int (raw : gmap string PyVal)
    (f : File.t) :
  from_dict find_str find_int raw = ok f →
  PyStr.has_char "|" (File.dataset_id f) = false
  ∧ PyStr.has_char "|" (File.url f) = false
  ∧ PyStr.has_char "." (File.version f) = false
  ∧ (∃ master,
       File.dataset_id f = master +:+ "." +:+ File.version f
       ∧ File.master_id f = master +:+ "." +:+ File.filename f)
  ∧ File.file_id f = File.dataset_id f +:+ "." +:+ File.filename f
  ∧ File.status f = new
  ∧ File.raw f = raw
  ∧ get_local_path find_str raw (File.version f) = ok (File.local_path f).
Proof.
  unfold from_dict, mbind, exc_bind, ebind, ok.
  destruct (raw_str find_str raw "dataset_id") as [|ds]; [discriminate|].
  destruct (raw_str find_str raw "title") as [|title]; [discriminate|].
  destruct (raw_str find_str raw "url") as [|u]; [discriminate|].
  destruct (raw_str find_str raw "data_node") as [|dn]; [discriminate|].
  destruct (raw_str find_str raw "checksum") as [|ck]; [discriminate|].
  destruct (raw_str find_str raw "checksum_type") as [|ct]; [discriminate|].
  destruct (getitem raw "size") as [|sz]; [discriminate|].
  destruct (find_int sz) as [|size]; [discriminate|].
  unfold PyStr.rsplit1.
  destruct (PyStr.rsplit_last (PyStr.partition0 ds "|") ".") as [[master version]|]
    eqn:Hsplit; unfold PyStr.index; simpl lookup;
    cbv beta iota delta [ok raise]; [|discriminate].
  destruct (get_local_path find_str raw version) as [|path] eqn:Hpath;
    [discriminate|].
  intros H. injection H as <-.
  cbn [File.dataset_id File.url File.version File.master_id File.filename
       File.file_id File.status File.raw File.local_path].
  apply rsplit_last_split in Hsplit as [Hds Hversion].
  split; [apply partition0_no_sep|]. split; [apply partition0_no_sep|].
  split; [exact Hversion|]. split.
  { exists master. split; [exact Hds|reflexivity]. }
  repeat split. exact Hpath.
Qed.

Lemma from_dict_invariants_witness :
  PyStr.has_char "|" (File.dataset_id (sample_file new)) = false
  ∧ PyStr.has_char "|" (File.url (sample_file new)) = false
  ∧ PyStr.has_char "." (File.version (sample_file new)) = false
  ∧ (∃ master,
       File.dataset_id (sample_file new)
       = master +:+ "." +:+ File.version (sample_file new)
       ∧ File.master_id (sample_file new)
         = master +:+ "." +:+ File.filename (sample_file new))
  ∧ File.file_id (sample_file new)
    = File.dataset_id (sample_file new) +:+ "." +:+ File.filename (sample_file new)
  ∧ File.status (sample_file new) = new
  ∧ File.raw (sample_file new) = sample_raw
  ∧ get_local_path first_str sample_raw (File.version (sample_file new))
    = ok (File.local_path (sample_file new)).
Proof.
  apply (from_dict_invariants first_str first_int sample_raw (sample_file new)).
  vm_compute. reflexivity.
Defined.

(** A dataset identity without a dot makes [from_dict] raise [IndexError],
    at the version it takes after the last dot, once the other fields have
    been read. *)
Theorem from_dict_no_version_segment find_str find_int (raw : gmap string PyVal)
    (identity title u dn ck ct : string) (found : PyVal) (size : Z) :
  raw_str find_str raw "dataset_id" = ok identity →
  PyStr.has_char "." (PyStr.partition0 identity "|") = false →
  raw_str find_str raw "title" = ok title →
  raw_str find_str raw "url" = ok u →
  raw_str find_str raw "data_node" = ok dn →
  raw_str find_str raw "checksum" = ok ck →
  raw_str find_str raw "checksum_type" = ok ct →
  raw !! "size" = Some found → find_int found = ok size →
  from_dict find_str find_int raw = raise IndexError.
Proof.
  intros Hds Hdot Ht Hu Hdn Hck Hct Hsz Hint.
  unfold from_dict, getitem.
  rewrite Hds, Ht, Hu, Hdn, Hck, Hct, Hsz.
  cbn [mbind exc_bind ebind ok]. rewrite Hint. cbn [mbind exc_bind ebind ok].
  unfold PyStr.rsplit1. rewrite (rsplit_last_none "." _ Hdot).
  reflexivity.
Qed.

Lemma from_dict_no_version_segment_witness :
  from_dict first_str first_int no_version_raw = raise IndexError.
Proof.
  apply (from_dict_no_version_segment first_str first_int no_version_raw
           "obs4MIPs|esgf.nccs.nasa.gov" "tas_Amon.nc"
           "https://vesg.ipsl.upmc.fr/tas_Amon.nc|application/netcdf|HTTPServer"
           "vesg.ipsl.upmc.fr" "0a1b2c" "SHA256" (VInt 1024) 1024);
    vm_compute; reflexivity.
Defined.

(** ** The refreshed vocabulary, for every federation answer *)

Section VocabularyFacts.
Local Close Scope string_scope.

Lemma elem_of_facet_values (value : string) (values : gmap string Z) :
  value ∈ facet_values values
  ↔ ∃ count, values !! value = Some count ∧ count ≠ 0%Z
             ∧ String.length value ≤ 255.
Proof.
  unfold facet_values. rewrite elem_of_dom. split.
  - intros [count Hc]. apply map_lookup_filter_Some in Hc as [Hv [Hnz Hlen]].
    exists count. repeat split; assumption.
  - intros (count & Hv & Hnz & Hlen). exists count.
    apply map_lookup_filter_Some. repeat split; assumption.
Qed.

Lemma add_facet_recorded (acc : gmap string (gset string)) (name : string)
    (values : gmap string Z) (n v : string) :
  recorded (add_facet acc (name, values)) n v
  ↔ (recorded acc n v
     ∨ (n = name ∧ (name ∉ SKIP_FACETS) ∧ v ∈ facet_values values)).
Proof.
  unfold add_facet.
  destruct (bool_decide (name ∈ SKIP_FACETS)) eqn:Hskip; cbn [orb].
  { apply bool_decide_eq_true in Hskip. split; [left; assumption|].
    intros [H|(_ & Hn & _)]; [exact H|contradiction]. }
  apply bool_decide_eq_false in Hskip.
  destruct (bool_decide (size values = 0)) eqn:Hsize.
  { apply bool_decide_eq_true, map_size_empty_inv in Hsize. subst values.
    split; [left; assumption|].
    intros [H|(_ & _ & Hv)]; [exact H|].
    apply elem_of_facet_values in Hv as (count & Hc & _).
    rewrite lookup_empty in Hc. discriminate. }
  destruct (bool_decide (facet_values values ≠ ∅)) eqn:Hfound.
  - unfold recorded. split.
    + intros (vs & Hvs & Hv).
      destruct (decide (name = n)) as [->|Hne].
      * rewrite lookup_insert_eq in Hvs. injection Hvs as <-.
        apply elem_of_union in Hv as [Hv|Hv].
        -- left. destruct (acc !! n) as [old|] eqn:Hold; cbn in Hv.
           ++ exists old. split; [reflexivity|exact Hv].
           ++ apply not_elem_of_empty in Hv. contradiction.
        -- right. repeat split; assumption.
      * rewrite lookup_insert_ne in Hvs by exact Hne.
        left. exists vs. split; assumption.
    + intros [(vs & Hvs & Hv)|(-> & _ & Hv)].
      * destruct (decide (name = n)) as [->|Hne].
        -- eexists. rewrite lookup_insert_eq. split; [reflexivity|].
           rewrite Hvs. cbn. apply elem_of_union. left. exact Hv.
        -- exists vs. rewrite lookup_insert_ne by exact Hne. split; assumption.
      * eexists. rewrite lookup_insert_eq. split; [reflexivity|].
        apply elem_of_union. right. exact Hv.
  - apply bool_decide_eq_false in Hfound.
    assert (facet_values values = ∅) as Hempty
      by (destruct (decide (facet_values values = ∅)); [assumption|contradiction]).
    split; [left; assumption|].
    intros [H|(_ & _ & Hv)]; [exact H|].
    rewrite Hempty in Hv. apply not_elem_of_empty in Hv. contradiction.
Qed.

Lemma add_facets_recorded (items : list (string * gmap string Z))
    (acc : gmap string (gset string)) (n v : string) :
  recorded (foldl add_facet acc items) n v
  ↔ (recorded acc n v
     ∨ (∃ values,
          (n, values) ∈ items ∧ (n ∉ SKIP_FACETS) ∧ v ∈ facet_values values)).
Proof.
  revert acc. induction items as [|[name values] items IH]; intros acc.
  - cbn [foldl]. split; [left; assumption|].
    intros [H|(values & Hin & _)]; [exact H|].
    apply elem_of_nil in Hin. contradiction.
  - cbn [foldl]. rewrite IH, add_facet_recorded. split.
    + intros [[H|(-> & Hn & Hv)]|(vs & Hin & Hn & Hv)].
      * left. exact H.
      * right. exists values. split; [apply list_elem_of_here|]. split; assumption.
      * right. exists vs. split; [apply list_elem_of_further; exact Hin|].
        split; assumption.
    + intros [H|(vs & Hin & Hn & Hv)].
      * left. left. exact H.
      * apply elem_of_cons in Hin as [Heq|Hin].
        -- injection Heq as -> ->. left. right. repeat split; assumption.
        -- right. exists vs. repeat split; assumption.
Qed.

Lemma collect_from_recorded (fs : list FacetCounts)
    (acc : gmap string (gset string)) (n v : string) :
  recorded (foldl (λ acc facets, foldl add_facet acc (map_to_list facets)) acc fs) n v
  ↔ (recorded acc n v
     ∨ (∃ facets values,
          facets ∈ fs ∧ facets !! n = Some values
          ∧ (n ∉ SKIP_FACETS) ∧ v ∈ facet_values values)).
Proof.
  revert acc. induction fs as [|facets fs IH]; intros acc.
  - cbn [foldl]. split; [left; assumption|].
    intros [H|(facets & values & Hin & _)]; [exact H|].
    apply elem_of_nil in Hin. contradiction.
  - cbn [foldl]. rewrite IH, add_facets_recorded. split.
    + intros [[H|(values & Hin & Hn & Hv)]|(fc & values & Hin & Hl & Hn & Hv)].
      * left. exact H.
      * right. exists facets, values. apply elem_of_map_to_list in Hin.
        split; [apply list_elem_of_here|]. repeat split; assumption.
      * right. exists fc, values.
        split; [apply list_elem_of_further; exact Hin|]. repeat split; assumption.
    + intros [H|(fc & values & Hin & Hl & Hn & Hv)].
      * left. left. exact H.
      * apply elem_of_cons in Hin as [->|Hin].
        -- left. right. exists values. apply elem_of_map_to_list in Hl.
           repeat split; assumption.
        -- right. exists fc, values. repeat split; assumption.
Qed.

Lemma elem_of_new_params (m : gmap string (gset string)) (p : Param.t) :
  p ∈ new_params_of m ↔ recorded m (Param.name p) (Param.value p).
Proof.
  unfold new_params_of, recorded. rewrite list_elem_of_bind. split.
  - intros ([name values] & Hp & Hitem).
    apply list_elem_of_fmap in Hp as (value & -> & Hvalue).
    apply elem_of_elements in Hvalue. apply elem_of_map_to_list in Hitem.
    exists values. split; assumption.
  - intros (values & Hm & Hv). exists (Param.name p, values). split.
    + apply list_elem_of_fmap. exists (Param.value p). split.
      * destruct p; reflexivity.
      * apply elem_of_elements. exact Hv.
    + apply elem_of_map_to_list. exact Hm.
Qed.

Lemma NoDup_new_params (m : gmap string (gset string)) :
  NoDup (new_params_of m).
Proof.
  unfold new_params_of. apply NoDup_bind.
  - intros [n1 v1] [n2 v2] p H1 H2 Hp1 Hp2.
    apply list_elem_of_fmap in Hp1 as (x1 & -> & _).
    apply list_elem_of_fmap in Hp2 as (x2 & Heq & _).
    cbn [fst snd] in Heq. injection Heq as -> ->.
    apply elem_of_map_to_list in H1, H2. cbn [fst] in *.
    rewrite H1 in H2. injection H2 as ->. reflexivity.
  - intros [n vs] _. apply NoDup_fmap_2.
    + intros x y Hxy. injection Hxy as ->. reflexivity.
    + apply NoDup_elements.
  - apply NoDup_map_to_list.
Qed.

End VocabularyFacts.

(** A successful refresh leaves in the cache exactly the rows [(name,
    value)] such that [name] is not denylisted and some answer counts
    [value] under [name] with a non-zero count and at most 255 characters;
    no row occurs twice and no row of the old cache is kept. *)
Theorem fetch_params_refreshed fc (update : bool) (s : Store)
    (index_facets : list FacetCounts) :
  params s = [] ∨ update = true →
  fetch_index_facets fc = ok index_facets →
  ∃ s',
    fetch_params fc update s = (ok true, s')
    ∧ NoDup (params s')
    ∧ ∀ p, p ∈ params s'
        ↔ ((Param.name p ∉ SKIP_FACETS)
           ∧ ∃ facets values count,
              facets ∈ index_facets
              ∧ facets !! Param.name p = Some values
              ∧ values !! Param.value p = Some count
              ∧ count ≠ 0%Z
              ∧ (String.length (Param.value p) ≤ 255)%nat).
Proof.
  intros Hpast Hok. unfold fetch_params, select_params.
  assert (negb (bool_decide (params s = [])) && negb update = false) as ->.
  { destruct Hpast as [->| ->]; [reflexivity|]. apply andb_false_r. }
  rewrite Hok. unfold ok.
  eexists. split; [reflexivity|].
  pose proof (replace_params_all s (new_params_of (collect index_facets))) as Hnew.
  unfold select_params in Hnew. cbn [snd] in Hnew. rewrite Hnew.
  split; [apply NoDup_new_params|].
  intros p. rewrite elem_of_new_params. unfold collect.
  rewrite collect_from_recorded. split.
  - intros [(vs & Hvs & _)|(facets & values & Hin & Hl & Hn & Hv)].
    + rewrite lookup_empty in Hvs. discriminate.
    + apply elem_of_facet_values in Hv as (count & Hc & Hnz & Hlen).
      split; [exact Hn|]. exists facets, values, count. repeat split; assumption.
  - intros (Hn & facets & values & count & Hin & Hl & Hc & Hnz & Hlen).
    right. exists facets, values. repeat split; try assumption.
    apply elem_of_facet_values. exists count. repeat split; assumption.
Qed.

Lemma fetch_params_refreshed_witness :
  ∃ s',
    fetch_params node_up true sample_store = (ok true, s')
    ∧ NoDup (params s')
    ∧ ∀ p, p ∈ params s'
        ↔ ((Param.name p ∉ SKIP_FACETS)
           ∧ ∃ facets values count,
              facets ∈ [node_answer]
              ∧ facets !! Param.name p = Some values
              ∧ values !! Param.value p = Some count
              ∧ count ≠ 0%Z
              ∧ (String.length (Param.value p) ≤ 255)%nat).
Proof.
  apply (fetch_params_refreshed node_up true sample_store).
  - right. reflexivity.
  - vm_compute. reflexivity.
Defined.

(** With a cache that is not empty and without [update], [fetch_params]
    returns [False] after its one read of the table: no row is deleted or
    added and the federation is not asked, whatever it would answer. *)
Theorem fetch_params_uses_cache fc (s : Store) :
  params s ≠ [] →
  fetch_params fc false s
  = (ok false, mkStore (params s) (param_calls s ++ [SelectParams])).
Proof.
  intros Hne. unfold fetch_params, select_params.
  rewrite bool_decide_eq_false_2 by exact Hne. reflexivity.
Qed.

Lemma fetch_params_uses_cache_witness :
  fetch_params federation_down false sample_store
  = (ok false, mkStore (params sample_store) [SelectParams]).
Proof.
  apply (fetch_params_uses_cache federation_down sample_store).
  discriminate.
Defined.

(** When the answer to the request for index nodes is an empty list, the
    refresh raises [IndexError]; when its first element has no [index_node]
    facet, it raises [KeyError]. *)
Theorem fetch_index_facets_malformed fc (answer : list FacetCounts) :
  fc (mkContext true (Some "index_node") []) = ok answer →
  (∀ first, answer !! 0 = Some first → first !! "index_node" = None) →
  fetch_index_facets fc
  = raise (match answer with
           | [] => IndexError
           | _ :: _ => KeyError "index_node"
           end).
Proof.
  intros H Hnone. unfold fetch_index_facets, getitem. rewrite H.
  destruct answer as [|first rest]; [reflexivity|].
  cbn [mbind exc_bind ebind ok PyStr.index lookup list_lookup].
  rewrite (Hnone first eq_refl). reflexivity.
Qed.

Lemma fetch_index_facets_malformed_witness :
  fetch_index_facets federation_mute = raise IndexError.
Proof.
  apply (fetch_index_facets_malformed federation_mute []).
  - reflexivity.
  - intros first Hfirst. discriminate Hfirst.
Defined.

(** ** The configuration command: esgpull/cli/config.py *)

Section ConfigFacts.

Lemma wrap_cons key keys info :
  wrap (key :: keys) info = Table {[key := wrap keys info]}.
Proof. unfold wrap. rewrite reverse_cons, foldl_app. reflexivity. Qed.

Lemma descend_wrap keys info : descend keys (wrap keys info) = ok info.
Proof.
  induction keys as [|key keys IH]; [reflexivity|].
  rewrite wrap_cons. cbn [descend info_getitem]. unfold getitem.
  rewrite lookup_singleton_eq. exact IH.
Qed.

Lemma nonempty_keys (keys : list string) :
  "" ∈ keys → forallb (λ key, 0 <? String.length key)%nat keys = false.
Proof.
  induction keys as [|key keys IH]; intros Hin.
  - inversion Hin.
  - cbn [forallb]. destruct key as [|c key].
    + reflexivity.
    + rewrite IH; [apply andb_false_r|].
      apply elem_of_cons in Hin as [Heq|Hin]; [discriminate|exact Hin].
Qed.

End ConfigFacts.

(** [extract_command] keeps exactly one path: when it returns, the result
    is the chain of one-entry tables spelled by the dotted command, it
    holds at that path the very value the dump holds there, and nothing
    else of the dump. *)
Theorem extract_command_keeps_path info command out :
  extract_command info (Some command) = ok out →
  ∃ value, descend (PyStr.split command ".") info = ok value
    ∧ out = wrap (PyStr.split command ".") value
    ∧ descend (PyStr.split command ".") out = ok value.
Proof.
  unfold extract_command. cbv zeta.
  destruct (forallb _ _); [|discriminate].
  destruct (descend (PyStr.split command ".") info) as [e|value] eqn:Hd;
    [discriminate|].
  intros [= <-]. exists value. split; [reflexivity|].
  split; [reflexivity|]. apply descend_wrap.
Qed.

Lemma extract_command_keeps_path_witness :
  ∃ value, descend (PyStr.split "paths.data" ".") sample_config = ok value
    ∧ wrap ["paths"; "data"] (Leaf (VStr "/data"))
      = wrap (PyStr.split "paths.data" ".") value
    ∧ descend (PyStr.split "paths.data" ".")
        (wrap ["paths"; "data"] (Leaf (VStr "/data"))) = ok value.
Proof.
  apply (extract_command_keeps_path sample_config "paths.data").
  vm_compute. reflexivity.
Defined.

(** Extracting the same command from a result of [extract_command] gives
    that result back. *)
Theorem extract_command_idempotent info command out :
  extract_command info (Some command) = ok out →
  extract_command out (Some command) = ok out.
Proof.
  unfold extract_command. cbv zeta.
  destruct (forallb _ _); [|discriminate].
  destruct (descend (PyStr.split command ".") info) as [e|value] eqn:Hd;
    [discriminate|].
  intros [= <-]. rewrite descend_wrap. reflexivity.
Qed.

Lemma extract_command_idempotent_witness :
  extract_command (wrap ["search"; "index_node"]
                     (Leaf (VStr "esgf-node.ipsl.upmc.fr")))
    (Some "search.index_node")
  = ok (wrap ["search"; "index_node"] (Leaf (VStr "esgf-node.ipsl.upmc.fr"))).
Proof.
  apply (extract_command_idempotent sample_config "search.index_node").
  vm_compute. reflexivity.
Defined.

(** A command with an empty segment (the empty command, a leading or
    trailing dot, two dots in a row) fails the assertion, whatever the
    dump holds. *)
Theorem extract_command_empty_segment info command :
  "" ∈ PyStr.split command "." →
  extract_command info (Some command) = raise AssertionError.
Proof.
  intros Hin. unfold extract_command. cbv zeta.
  rewrite (nonempty_keys _ Hin). reflexivity.
Qed.

Lemma extract_command_empty_segment_witness :
  extract_command sample_config (Some "paths..data") = raise AssertionError.
Proof.
  apply (extract_command_empty_segment sample_config "paths..data").
  vm_compute. apply list_elem_of_further, list_elem_of_here.
Defined.

(** ** Names of queries: esgpull/models/query.py *)

Section NameLaws.
Local Close Scope string_scope.

Variable sha1 : string → string.
Variable options_as_bytes : gmap string FlagValue → string.
Variable selection_as_bytes : gmap string (list string) → string.
Variable repr : string → string.

Local Abbreviation name_of := (name sha1 options_as_bytes selection_as_bytes repr).
Local Abbreviation id_of := (identity sha1 options_as_bytes selection_as_bytes repr).

Lemma take_length (n : nat) (s : string) : String.length (PyStr.take n s) ≤ n.
Proof.
  revert s. induction n as [|n IH]; intros [|c s]; cbn; try lia.
  specialize (IH s). lia.
Qed.

Lemma format_name_length (sha : string) : String.length (format_name sha) ≤ 7.
Proof.
  unfold format_name. pose proof (take_length 6 sha) as Hle.
  change (Datatypes.S (String.length (PyStr.take 6 sha)) ≤ 7). lia.
Qed.

(** Reading the name of a query that has no [sha] yet computes it in
    place: the name is that of the identity of the query, the query
    carries this [sha] afterwards, and [view] shows it as before. *)
Theorem name_computes_missing_sha (h : Heap) (q : loc) (v : QueryView) :
  view h q = Some v → sha_of h q = None →
  ∃ h', name_of q h
        = Some (ok (format_name (id_of (v_require v) (v_options v) (v_selection v))), h')
    ∧ sha_of h' q = Some (id_of (v_require v) (v_options v) (v_selection v))
    ∧ view h' q = Some v.
Proof.
  intros Hv Hsha.
  destruct (compute_sha_identity sha1 options_as_bytes selection_as_bytes repr
              h q v Hv) as (h' & Hrun & Hsha' & Hv').
  exists h'. split; [|split; assumption].
  unfold sha_of in Hsha, Hsha'.
  destruct (query_objs h !! q) as [x|] eqn:Hq;
    [|apply view_inv in Hv as (? & ? & ? & ? & ? & ? & _); congruence].
  destruct (query_objs h' !! q) as [x'|] eqn:Hq'; [|discriminate].
  cbn [mbind option_bind] in Hsha, Hsha'.
  unfold name, mbind, py_bind, get_query. rewrite Hq. cbn [mbind option_bind].
  rewrite Hsha, Hrun, Hq'. cbn [mbind option_bind]. rewrite Hsha'. reflexivity.
Qed.

(** The name of a query that carries a [sha] is read off that [sha],
    whatever the query holds now, and the heap is left as it is. *)
Theorem name_reads_stored_sha (h : Heap) (q : loc) (sha : string) :
  sha_of h q = Some sha → name_of q h = Some (ok (format_name sha), h).
Proof.
  unfold sha_of. intros Hsha.
  destruct (query_objs h !! q) as [x|] eqn:Hq; [|discriminate].
  cbn [mbind option_bind] in Hsha.
  unfold name, mbind, py_bind, get_query. rewrite Hq. cbn [mbind option_bind].
  rewrite Hsha. unfold mret, py_ret. rewrite Hq. cbn [mbind option_bind].
  rewrite Hsha. reflexivity.
Qed.

End NameLaws.

Lemma name_computes_missing_sha_witness :
  ∃ h', name toy_sha1 toy_options_bytes toy_selection_bytes toy_repr 1 sample_heap
        = Some (ok (format_name
                      (identity toy_sha1 toy_options_bytes toy_selection_bytes
                         toy_repr (v_require sample_override)
                         (v_options sample_override)
                         (v_selection sample_override))), h')
    ∧ sha_of h' 1
      = Some (identity toy_sha1 toy_options_bytes toy_selection_bytes toy_repr
                (v_require sample_override) (v_options sample_override)
                (v_selection sample_override))
    ∧ view h' 1 = Some sample_override.
Proof.
  apply (name_computes_missing_sha toy_sha1 toy_options_bytes
           toy_selection_bytes toy_repr sample_heap 1 sample_override);
    vm_compute; reflexivity.
Defined.

Lemma name_reads_stored_sha_witness :
  name toy_sha1 toy_options_bytes toy_selection_bytes toy_repr 0 stored_heap
  = Some (ok "#f00dfe", stored_heap).
Proof.
  apply (name_reads_stored_sha toy_sha1 toy_options_bytes toy_selection_bytes
           toy_repr stored_heap 0 "f00dfeed0123").
  vm_compute. reflexivity.
Defined.

(** [short_require] never returns a string of forty characters: a
    requirement of that length is cut down to its short name, of seven
    characters at most; any other one is returned as it is.  The heap is
    only read. *)
Theorem short_require_never_forty (h h' : Heap) (q : loc) (s : string) :
  short_require q h = Some (ok s, h') →
  h' = h ∧ String.length s ≠ 40%nat
  ∧ ∃ x require, query_objs h !! q = Some x ∧ Query.require x = Some require
      ∧ (s = require ∨ (String.length require = 40%nat ∧ s = format_name require)).
Proof.
  unfold short_require, mbind, py_bind, get_query.
  destruct (query_objs h !! q) as [x|] eqn:Hq; [|discriminate].
  cbn [mbind option_bind].
  destruct (Query.require x) as [require|] eqn:Hr; [|discriminate].
  destruct (Nat.eqb_spec (String.length require) 40) as [Hlen|Hlen];
    intros [= <- <-]; (split; [reflexivity|]).
  - split.
    + pose proof (format_name_length require). lia.
    + exists x, require. auto.
  - split; [exact Hlen|]. exists x, require. auto.
Qed.

Lemma short_require_never_forty_witness :
  stored_heap = stored_heap ∧ String.length "#012345" ≠ 40%nat
  ∧ ∃ x require, query_objs stored_heap !! 0 = Some x
      ∧ Query.require x = Some require
      ∧ ("#012345" = require
         ∨ (String.length require = 40%nat ∧ "#012345" = format_name require)).
Proof.
  apply (short_require_never_forty stored_heap stored_heap 0 "#012345").
  vm_compute. reflexivity.
Defined.

(** ** Rendering of a list of values: esgpull/models/query.py *)

Section RenderingFacts.

Variable with_indent_guides : string → nat → string.

Local Abbreviation render := (__wrap_values with_indent_guides).

Lemma length_append (a b : string) :
  String.length (a +:+ b) = (String.length a + String.length b)%nat.
Proof.
  induction a as [|c a IH]; [reflexivity|].
  change (Datatypes.S (String.length (a +:+ b))
          = Datatypes.S (String.length a + String.length b)).
  rewrite IH. reflexivity.
Qed.

Lemma join_cons2 sep (x y : string) (l : list string) :
  PyStr.join sep (x :: y :: l) = x +:+ sep +:+ PyStr.join sep (y :: l).
Proof. reflexivity. Qed.

Lemma join_length_prefix sep (a b : list string) :
  (String.length (PyStr.join sep a) ≤ String.length (PyStr.join sep (a ++ b)))%nat.
Proof.
  induction a as [|x [|y a] IH].
  - cbn. lia.
  - destruct b as [|y b]; [cbn; lia|].
    change ([x] ++ y :: b)%list with (x :: y :: b). rewrite join_cons2.
    rewrite length_append. cbn [PyStr.join]. lia.
  - change ((x :: y :: a) ++ b)%list with (x :: y :: (a ++ b)%list).
    rewrite !join_cons2, !length_append.
    change (y :: (a ++ b))%list with ((y :: a) ++ b)%list. lia.
Qed.

(** While everything still to come fits, the loop only fills the line. *)
Lemma wrap_loop_fits maxlen (rest : list string) :
  ∀ lines cur,
    (Z.of_nat (String.length (PyStr.join ", " (cur ++ rest))) < maxlen)%Z →
    foldl (wrap_step maxlen) (lines, cur) rest = (lines, (cur ++ rest)%list).
Proof.
  induction rest as [|value rest IH]; intros lines cur Hfit.
  - rewrite app_nil_r. reflexivity.
  - cbn [foldl]. unfold wrap_step at 2. cbn [fst snd].
    pose proof (join_length_prefix ", " (cur ++ [value]) rest) as Hle.
    rewrite <- app_assoc in Hle. cbn [app] in Hle.
    destruct (Z.ltb_spec (Z.of_nat (String.length (PyStr.join ", " (cur ++ [value]))))
                maxlen) as [_|Hge]; [|lia].
    rewrite IH; rewrite <- app_assoc; [reflexivity|exact Hfit].
Qed.

(** The loop cuts the values into consecutive groups, one per line; the
    line being filled fits. *)
Lemma wrap_loop_groups maxlen (values : list string) :
  ∀ groups cur,
    (cur ≠ [] → (Z.of_nat (String.length (PyStr.join ", " cur)) < maxlen)%Z) →
    ∃ groups' cur',
      foldl (wrap_step maxlen) (PyStr.join ", " <$> groups, cur) values
      = (PyStr.join ", " <$> groups', cur')
      ∧ (concat groups ++ cur ++ values = concat groups' ++ cur')%list
      ∧ (cur' ≠ [] → (Z.of_nat (String.length (PyStr.join ", " cur')) < maxlen)%Z).
Proof.
  induction values as [|value values IH]; intros groups cur Hcur.
  - exists groups, cur. rewrite app_nil_r. auto.
  - cbn [foldl]. unfold wrap_step at 2. cbn [fst snd].
    destruct (Z.ltb_spec (Z.of_nat (String.length (PyStr.join ", " (cur ++ [value]))))
                maxlen) as [Hfit|Hge].
    + destruct (IH groups (cur ++ [value])%list (λ _, Hfit))
        as (groups' & cur' & Hrun & Hcat & Hfit').
      exists groups', cur'. rewrite Hrun, <- Hcat, <- app_assoc. auto.
    + destruct (IH (groups ++ [cur ++ [value]])%list [])
        as (groups' & cur' & Hrun & Hcat & Hfit'); [congruence|].
      exists groups', cur'. rewrite fmap_app in Hrun. cbn [fmap list_fmap] in Hrun.
      rewrite Hrun, <- Hcat, concat_app. cbn [concat].
      rewrite app_nil_r, <- !app_assoc. auto.
Qed.

(** Every line is the join of a group of consecutive values, the groups
    follow one another from the first value on, and the values after
    the last group, which would have fitted on a line, are left out. *)
Theorem wrap_lines_groups maxlen (values : list string) :
  ∃ groups dropped,
    values = (concat groups ++ dropped)%list
    ∧ wrap_lines maxlen values = PyStr.join ", " <$> groups
    ∧ groups ≠ []
    ∧ (dropped ≠ []
       → (Z.of_nat (String.length (PyStr.join ", " dropped)) < maxlen)%Z).
Proof.
  destruct (wrap_loop_groups maxlen values [] []) as (groups & cur & Hrun & Hcat & Hfit);
    [congruence|].
  cbn [fmap list_fmap concat app] in Hrun, Hcat.
  unfold wrap_lines. rewrite Hrun. cbn [fst snd].
  destruct groups as [|group groups].
  - exists [cur], []. cbn [concat app] in Hcat. subst cur.
    cbn [concat fmap list_fmap]. rewrite !app_nil_r.
    repeat split; congruence.
  - exists (group :: groups), cur. repeat split; [exact Hcat|congruence|exact Hfit].
Qed.

(** Values that fit together on the line are written on one line,
    between brackets, and no guide is drawn. *)
Theorem wrap_values_single_line (text : string) (values : list string) :
  (Z.of_nat (String.length (PyStr.join ", " values))
   < 40 - Z.of_nat (String.length (text +:+ "[")))%Z →
  render text values = ok (text +:+ "[" +:+ PyStr.join ", " values +:+ "]").
Proof.
  intros Hfit. unfold __wrap_values, wrap_lines. cbv zeta.
  rewrite (wrap_loop_fits _ values [] []) by exact Hfit.
  cbn [fst snd app PyStr.index lookup list_lookup mbind exc_bind ebind drop foldl].
  f_equal. rewrite <- !append_assoc. reflexivity.
Qed.

(** A first value too long for the line hides the values after it when
    those fit together on a line: only the first one is written. *)
Theorem wrap_values_hides_tail (text long : string) (rest : list string) :
  (40 - Z.of_nat (String.length (text +:+ "[")) ≤ Z.of_nat (String.length long))%Z →
  (Z.of_nat (String.length (PyStr.join ", " rest))
   < 40 - Z.of_nat (String.length (text +:+ "[")))%Z →
  render text (long :: rest) = ok (text +:+ "[" +:+ long +:+ "]").
Proof.
  intros Hlong Hfit. unfold __wrap_values, wrap_lines. cbv zeta.
  assert (wrap_step (40 - Z.of_nat (String.length (text +:+ "["))) ([], []) long
          = ([long], [])) as Hstep.
  { unfold wrap_step. cbn [fst snd app PyStr.join].
    destruct (Z.ltb_spec (Z.of_nat (String.length long))
                (40 - Z.of_nat (String.length (text +:+ "[")))) as [Hlt|_];
      [lia|reflexivity]. }
  cbn [foldl]. rewrite Hstep.
  rewrite (wrap_loop_fits _ rest [long] []) by exact Hfit.
  cbn [fst snd app PyStr.index lookup list_lookup mbind exc_bind ebind drop foldl].
  f_equal. rewrite <- !append_assoc. reflexivity.
Qed.

End RenderingFacts.

Lemma wrap_values_single_line_witness :
  __wrap_values toy_guides "  tags: " ["cmip"; "monthly"]
  = ok "  tags: [cmip, monthly]".
Proof.
  apply (wrap_values_single_line toy_guides "  tags: " ["cmip"; "monthly"]).
  vm_compute. reflexivity.
Defined.

Lemma wrap_values_hides_tail_witness :
  __wrap_values toy_guides "  tags: " [long_tag; "cmip"; "monthly"]
  = ok ("  tags: [" +:+ long_tag +:+ "]").
Proof.
  apply (wrap_values_hides_tail toy_guides "  tags: " long_tag ["cmip"; "monthly"]).
  - vm_compute. discriminate.
  - vm_compute. reflexivity.
Defined.
